(** * Rejection reconciliation of the personal assistant

    A shallow embedding of
    - [personal_assistant/utils.py]: [get_memory], [update_memory],
      [aget_memory], [aupdate_memory];
    - [personal_assistant/middleware/email_post_interrupt.py]:
      [PostInterruptMemoryMiddleware] with its hooks [before_model],
      [after_tool], [abefore_model] and the profile updaters
      [_update_memory_for_reject], [_aupdate_memory_for_reject].

    Python objects that are mutated in place (the stores, the set
    [_processed_tool_calls]) live in an explicit [world]; a hook is a
    computation in a state-and-exception monad that also emits the
    sequence of calls it makes to its collaborators (store, language
    model, profile updater, ledger), so that "is invoked", "no write
    occurs" and "exactly once" can be stated. *)

From Stdlib Require Import String Ascii List ZArith Lia.
From stdpp Require Import base gmap strings list fin_maps fin_sets.

Set Warnings "-clear-no-such-hyp".

Local Open Scope string_scope.
Local Open Scope list_scope.
Local Open Scope nat_scope.

(** ** Messages *)

(** JSON-like values of a tool call's argument mapping. *)
#[warnings="-register-all"]
Inductive json : Type :=
| JNull
| JBool (b : bool)
| JNum (z : Z)
| JStr (s : string)
| JArr (items : list json)
| JObj (fields : list (string * json)).

(** A Python [dict] with string keys, in insertion order. *)
Definition args_dict : Type := list (string * json).

(** [bool(d)] for a dict: non-empty. *)
Definition dict_truthy (d : args_dict) : bool :=
  match d with [] => false | _ :: _ => true end.

(** A tool call carried by an assistant message: a dict read with
    [tc.get("id")] and [tc.get("args", {})]; [None] is an absent key. *)
Record tool_call : Type := ToolCall {
  tc_name : string;
  tc_args : option args_dict;
  tc_id : option string
}.

(** The messages of a conversation history.  Only [ToolMessage] has the
    attributes [status] and [tool_call_id]; only [AIMessage] passes
    [isinstance(msg, AIMessage)].  [DictMessage] is a plain
    [{"role": .., "content": ..}] dict. *)
Inductive message : Type :=
| HumanMessage (content : string)
| SystemMessage (content : string)
| AIMessage (content : string) (tool_calls : list tool_call)
| ToolMessage (content : string) (tool_call_id : string)
              (name : option string) (status : string)
| DictMessage (role : string) (content : string).

(** The agent state is read with [state.get("messages", [])]. *)
Record agent_state : Type := AgentState {
  st_messages : option (list message);
  st_other : list (string * json)
}.

Definition state_get_messages (state : agent_state) : list message :=
  match st_messages state with Some ms => ms | None => [] end.

(** ** Stores, runtime, world *)

Abbreviation store_id := nat (only parsing).
Abbreviation namespace := (list string) (only parsing).

(** The content of one store: [get(namespace, key) -> value | absent]. *)
Abbreviation kvstore := (gmap (list string * string) string) (only parsing).

(** [runtime]: [None] (falsy), an object without a [store] attribute, or
    an object whose [store] attribute is a store. *)
Inductive runtime : Type :=
| RuntimeNone
| RuntimeWithoutStore
| RuntimeWithStore (s : store_id).

Inductive exn : Type :=
| AttributeError (what : string)
| ModelError (info : string).

Inductive outcome (A : Type) : Type :=
| Returned (a : A)
| Raised (e : exn).
Arguments Returned {A} a.
Arguments Raised {A} e.

(** Calls made to the collaborators, in program order. *)
Inductive event : Type :=
| EvStoreGet (s : store_id) (ns : namespace) (key : string)
| EvStorePut (s : store_id) (ns : namespace) (key : string) (value : string)
| EvModelInvoke (prompt : list message)
| EvUpdateCall (tool_call_id : string) (tool_name : string)
               (original_args : args_dict) (rejection_message : string)
| EvMark (tool_call_id : string).

(** The mutable objects: every store object by identity, the ledger
    [_processed_tool_calls] of the middleware instance, and the number of
    model calls made so far (the model may answer the same prompt
    differently on a later call). *)
Record world : Type := World {
  stores : gmap nat (gmap (list string * string) string);
  processed : gset string;
  llm_calls : nat
}.

Record result (A : Type) : Type := Result {
  res_outcome : outcome A;
  res_world : world;
  res_events : list event
}.
Arguments Result {A} _ _ _.
Arguments res_outcome {A} _.
Arguments res_world {A} _.
Arguments res_events {A} _.

Definition M (A : Type) : Type := world -> result A.

Definition ret {A} (a : A) : M A := fun w => Result (Returned a) w [].

Definition raise {A} (e : exn) : M A := fun w => Result (Raised e) w [].

Definition bind {A B} (m : M A) (f : A -> M B) : M B :=
  fun w =>
    let r := m w in
    match res_outcome r with
    | Returned a =>
        let r' := f a (res_world r) in
        Result (res_outcome r') (res_world r') (res_events r ++ res_events r')
    | Raised e => Result (Raised e) (res_world r) (res_events r)
    end.

Notation "'let!' x ':=' m 'in' k" := (bind m (fun x => k))
  (at level 10, x name, m at level 100, k at level 200).
Notation "m '>>>' k" := (bind m (fun _ => k))
  (at level 90, right associativity).

(** [for x in xs: body(x)]: an exception leaves the loop. *)
Fixpoint for_each {A} (xs : list A) (body : A -> M unit) : M unit :=
  match xs with
  | [] => ret tt
  | x :: rest => body x >>> for_each rest body
  end.

(** Store operations ([store.get], [store.put] and their asynchronous
    equivalents [aget], [aput], which differ only in being awaited). *)
Definition store_content (w : world) (s : store_id) : gmap (list string * string) string :=
  stores w !!! s.

Definition store_get (s : store_id) (ns : namespace) (key : string) : M (option string) :=
  fun w => Result (Returned (store_content w s !! (ns, key))) w [EvStoreGet s ns key].

Definition store_put (s : store_id) (ns : namespace) (key value : string) : M unit :=
  fun w =>
    Result (Returned tt)
           (World (<[s := <[(ns, key) := value]> (store_content w s)]> (stores w))
                  (processed w) (llm_calls w))
           [EvStorePut s ns key value].

Definition store_aget := store_get.
Definition store_aput := store_put.

(** ** utils.py *)

Section Assistant.

(** The structured-output model: [llm.invoke(messages)] on the [n]-th
    call returns [result.user_preferences] or raises. *)
Variable llm_invoke : nat -> list message -> outcome string.

(** The text of [MEMORY_UPDATE_INSTRUCTIONS] before and after its only
    placeholder [{current_profile}]. *)
Variables MEMORY_UPDATE_INSTRUCTIONS_before MEMORY_UPDATE_INSTRUCTIONS_after : string.

(** [json.dumps(original_args, indent=2)] of the Python standard library. *)
Variable json_dumps : args_dict -> string.

Definition MEMORY_UPDATE_INSTRUCTIONS_format (current_profile : string) : string :=
  MEMORY_UPDATE_INSTRUCTIONS_before +:+ current_profile +:+ MEMORY_UPDATE_INSTRUCTIONS_after.

Definition invoke_model (prompt : list message) : M string :=
  fun w =>
    Result (llm_invoke (llm_calls w) prompt)
           (World (stores w) (processed w) (S (llm_calls w)))
           [EvModelInvoke prompt].

Definition ainvoke_model := invoke_model.

(** [get_memory(store, namespace, default_content)].  The item returned
    by [store.get] is truthy whenever it is present. *)
Definition get_memory (store : store_id) (ns : namespace) (default_content : string) : M string :=
  let! user_preferences := store_get store ns "user_preferences" in
  match user_preferences with
  | Some value => ret value
  | None =>
      store_put store ns "user_preferences" default_content >>>
      ret default_content
  end.

Definition aget_memory (store : store_id) (ns : namespace) (default_content : string) : M string :=
  let! user_preferences := store_aget store ns "user_preferences" in
  match user_preferences with
  | Some value => ret value
  | None =>
      store_aput store ns "user_preferences" default_content >>>
      ret default_content
  end.

(** [update_memory(store, namespace, messages)]: the argument of
    [llm.invoke] reads [user_preferences.value] before the call. *)
Definition update_memory (store : store_id) (ns : namespace) (messages : list message) : M unit :=
  let! user_preferences := store_get store ns "user_preferences" in
  match user_preferences with
  | None => raise (AttributeError "value")
  | Some value =>
      let! result := invoke_model
        (DictMessage "system" (MEMORY_UPDATE_INSTRUCTIONS_format value) :: messages) in
      store_put store ns "user_preferences" result
  end.

Definition aupdate_memory (store : store_id) (ns : namespace) (messages : list message) : M unit :=
  let! user_preferences := store_aget store ns "user_preferences" in
  match user_preferences with
  | None => raise (AttributeError "value")
  | Some value =>
      let! result := ainvoke_model
        (DictMessage "system" (MEMORY_UPDATE_INSTRUCTIONS_format value) :: messages) in
      store_aput store ns "user_preferences" result
  end.

(** ** middleware/email_post_interrupt.py *)

(** The instance: [self.store]; [self.interrupt_tools] is the same
    constant for every instance and [self._processed_tool_calls] is in
    the [world]. *)
Record middleware : Type := Middleware { self_store : store_id }.

Definition interrupt_tools : gset string :=
  {[ "write_email"; "schedule_meeting"; "Question" ]}.

Definition nl : string := String "010"%char EmptyString.

Definition MEMORY_UPDATE_INSTRUCTIONS_REINFORCEMENT : string :=
  nl +:+ "Remember:" +:+ nl +:+
  "- NEVER overwrite the entire user profile" +:+ nl +:+
  "- ONLY make targeted additions of new information" +:+ nl +:+
  "- ONLY update specific facts that are directly contradicted by feedback messages" +:+ nl +:+
  "- PRESERVE all other existing information in the profile" +:+ nl +:+
  "- Format the profile consistently with the original style" +:+ nl +:+
  "- Generate the profile as a string" +:+ nl +:+
  "- Target length: 15-25 lines of moderate detail" +:+ nl.

(** [_get_store]: the runtime's store when the runtime is truthy and has
    a [store] attribute, the instance's store otherwise. *)
Definition _get_store (self : middleware) (rt : runtime) : store_id :=
  match rt with
  | RuntimeWithStore s => s
  | RuntimeNone | RuntimeWithoutStore => self_store self
  end.

(** The [if]/[elif] chain of [_update_memory_for_reject]. *)
Definition reject_feedback (tool_name : string) : string :=
  if decide (tool_name = "write_email") then
    "The user rejected the email draft, meaning they did not want to respond to this email. " +:+
    "Update the User Profile to refine triage criteria (which emails warrant responses) and/or " +:+
    "response style preferences based on what was wrong with the draft."
  else if decide (tool_name = "schedule_meeting") then
    "The user rejected the meeting invitation, meaning they did not want to schedule this meeting. " +:+
    "Update the User Profile to refine triage criteria (which meeting requests warrant scheduling) and/or " +:+
    "meeting scheduling preferences based on what was wrong with the invitation."
  else if decide (tool_name = "Question") then
    "The user rejected the clarification question, meaning they did not want to ask this question. " +:+
    "Update the User Profile to refine when questions should be asked or how they should be phrased."
  else
    "The user rejected the " +:+ tool_name +:+ " tool call. " +:+
    "Update the User Profile to learn from this feedback and avoid similar rejections in the future.".

(** [rejection_context]: empty when the rejection message is falsy. *)
Definition rejection_context (rejection_message : string) : string :=
  if decide (rejection_message = "") then ""
  else nl +:+ nl +:+ "User's rejection reason: " +:+ rejection_message.

(** The content of the user message appended for the update. *)
Definition reject_content (tool_name : string) (original_args : args_dict)
    (rejection_message : string) : string :=
  reject_feedback tool_name +:+ nl +:+ nl +:+
  "Rejected tool call: " +:+ tool_name +:+ nl +:+
  "Arguments: " +:+ json_dumps original_args +:+ rejection_context rejection_message +:+
  nl +:+ nl +:+ "Follow all instructions above, and remember: " +:+
  MEMORY_UPDATE_INSTRUCTIONS_REINFORCEMENT.

Definition update_namespace : list string := ["email_assistant"; "user_profile"].

Definition _update_memory_for_reject (self : middleware) (tool_name : string)
    (original_args : args_dict) (rejection_message : string)
    (state : agent_state) (rt : runtime) : M unit :=
  let ns := update_namespace in
  let messages := state_get_messages state in
  let messages_for_update :=
    messages ++ [DictMessage "user" (reject_content tool_name original_args rejection_message)] in
  let store := _get_store self rt in
  update_memory store ns messages_for_update.

Definition _aupdate_memory_for_reject (self : middleware) (tool_name : string)
    (original_args : args_dict) (rejection_message : string)
    (state : agent_state) (rt : runtime) : M unit :=
  let ns := update_namespace in
  let messages := state_get_messages state in
  let messages_for_update :=
    messages ++ [DictMessage "user" (reject_content tool_name original_args rejection_message)] in
  let store := _get_store self rt in
  aupdate_memory store ns messages_for_update.

(** [for tc in msg.tool_calls: if tc.get("id") == tool_call_id: ...; break] *)
Fixpoint first_matching_call (tcs : list tool_call) (tool_call_id : string)
    : option args_dict :=
  match tcs with
  | [] => None
  | tc :: rest =>
      if decide (tc_id tc = Some tool_call_id)
      then Some (default [] (tc_args tc))
      else first_matching_call rest tool_call_id
  end.

(** The loop over [reversed(messages)] that looks for the original
    arguments; [original_args] is the value assigned so far, and the
    loop stops as soon as it is truthy. *)
Fixpoint scan_original_args (msgs : list message) (tool_call_id : string)
    (original_args : args_dict) : args_dict :=
  match msgs with
  | [] => original_args
  | AIMessage _ tcs :: rest =>
      let original_args' :=
        match first_matching_call tcs tool_call_id with
        | Some a => a
        | None => original_args
        end in
      if dict_truthy original_args' then original_args'
      else scan_original_args rest tool_call_id original_args'
  | _ :: rest => scan_original_args rest tool_call_id original_args
  end.

Definition find_original_args (messages : list message) (tool_call_id : string) : args_dict :=
  scan_original_args (rev messages) tool_call_id [].

(** The ledger [self._processed_tool_calls]. *)
Definition ledger_contains (tool_call_id : string) : M bool :=
  fun w => Result (Returned (bool_decide (tool_call_id ∈ processed w))) w [].

Definition ledger_add (tool_call_id : string) : M unit :=
  fun w =>
    Result (Returned tt)
           (World (stores w) ({[ tool_call_id ]} ∪ processed w) (llm_calls w))
           [EvMark tool_call_id].

Definition emit (e : event) : M unit := fun w => Result (Returned tt) w [e].

(** The value a hook may return: a state update, or [None]. *)
Abbreviation state_update := (list (string * json)) (only parsing).

(** Body of the loop of [before_model]. *)
Definition before_model_body (self : middleware) (state : agent_state) (rt : runtime)
    (messages : list message) (msg : message) : M unit :=
  match msg with
  | ToolMessage rejection_message tool_call_id name status =>
      if decide (status = "error") then
        match name with
        | Some tool_name =>
            let! seen := ledger_contains tool_call_id in
            if bool_decide (tool_name ∈ interrupt_tools) && negb seen then
              let original_args := find_original_args messages tool_call_id in
              emit (EvUpdateCall tool_call_id tool_name original_args rejection_message) >>>
              _update_memory_for_reject self tool_name original_args rejection_message state rt >>>
              ledger_add tool_call_id
            else ret tt
        | None => ret tt
        end
      else ret tt
  | _ => ret tt
  end.

Definition before_model (self : middleware) (state : agent_state) (rt : runtime)
    : M (option state_update) :=
  let messages := state_get_messages state in
  for_each (rev messages) (before_model_body self state rt messages) >>>
  ret None.

(** Body of the loop of [after_tool]. *)
Definition after_tool_body (self : middleware) (state : agent_state) (rt : runtime)
    (messages : list message) (msg : message) : M unit :=
  match msg with
  | ToolMessage rejection_message tool_call_id name status =>
      if decide (status = "error") then
        match name with
        | Some tool_name =>
            let! seen := ledger_contains tool_call_id in
            if bool_decide (tool_name ∈ interrupt_tools) && negb seen then
              let original_args := find_original_args messages tool_call_id in
              emit (EvUpdateCall tool_call_id tool_name original_args rejection_message) >>>
              _update_memory_for_reject self tool_name original_args rejection_message state rt >>>
              ledger_add tool_call_id
            else ret tt
        | None => ret tt
        end
      else ret tt
  | _ => ret tt
  end.

Definition after_tool (self : middleware) (state : agent_state) (rt : runtime)
    : M (option state_update) :=
  let messages := state_get_messages state in
  match messages with
  | [] => ret None
  | _ :: _ =>
      for_each (rev messages) (after_tool_body self state rt messages) >>>
      ret None
  end.

(** Body of the loop of [abefore_model]. *)
Definition abefore_model_body (self : middleware) (state : agent_state) (rt : runtime)
    (messages : list message) (msg : message) : M unit :=
  match msg with
  | ToolMessage rejection_message tool_call_id name status =>
      if decide (status = "error") then
        match name with
        | Some tool_name =>
            let! seen := ledger_contains tool_call_id in
            if bool_decide (tool_name ∈ interrupt_tools) && negb seen then
              let original_args := find_original_args messages tool_call_id in
              emit (EvUpdateCall tool_call_id tool_name original_args rejection_message) >>>
              _aupdate_memory_for_reject self tool_name original_args rejection_message state rt >>>
              ledger_add tool_call_id
            else ret tt
        | None => ret tt
        end
      else ret tt
  | _ => ret tt
  end.

Definition abefore_model (self : middleware) (state : agent_state) (rt : runtime)
    : M (option state_update) :=
  let messages := state_get_messages state in
  for_each (rev messages) (abefore_model_body self state rt messages) >>>
  ret None.

(** The hook methods defined in the body of the class, by name (the
    private helpers [_get_store], [_update_memory_for_reject] and
    [_aupdate_memory_for_reject] are not hooks). *)
Definition class_hooks (name : string)
    : option (middleware -> agent_state -> runtime -> M (option state_update)) :=
  if decide (name = "before_model") then Some before_model
  else if decide (name = "after_tool") then Some after_tool
  else if decide (name = "abefore_model") then Some abefore_model
  else None.

(** The two synchronous entry points, and the name under which an
    asynchronous twin of a hook is looked up. *)
Definition sync_hook_names : list string := ["before_model"; "after_tool"].

Definition async_name (name : string) : string := "a" +:+ name.

(** ** A turn: a sequence of hook invocations *)

Inductive hook : Type := BeforeModel | AfterTool.

Definition run_hook (h : hook) (self : middleware) (state : agent_state) (rt : runtime)
    : M (option state_update) :=
  match h with
  | BeforeModel => before_model self state rt
  | AfterTool => after_tool self state rt
  end.

(** The engine calls the hooks one after the other on the same world; an
    exception of one invocation goes to the engine and is recorded in
    the list of outcomes. *)
Record turn : Type := Turn {
  turn_outcomes : list (outcome (option state_update));
  turn_world : world;
  turn_events : list event
}.

Fixpoint run_hooks (hs : list hook) (self : middleware) (state : agent_state)
    (rt : runtime) (w : world) : turn :=
  match hs with
  | [] => Turn [] w []
  | h :: rest =>
      let r := run_hook h self state rt w in
      let t := run_hooks rest self state rt (res_world r) in
      Turn (res_outcome r :: turn_outcomes t) (turn_world t)
           (res_events r ++ turn_events t)
  end.

Definition is_returned {A} (o : outcome A) : Prop :=
  match o with Returned _ => True | Raised _ => False end.

(** ** Observations on the emitted calls *)

(** The tool-call ids for which the profile updater was called. *)
Fixpoint call_ids (evs : list event) : list string :=
  match evs with
  | [] => []
  | EvUpdateCall id _ _ _ :: rest => id :: call_ids rest
  | _ :: rest => call_ids rest
  end.

(** The calls of the profile updater with their arguments. *)
Fixpoint update_calls (evs : list event) : list (string * string * args_dict * string) :=
  match evs with
  | [] => []
  | EvUpdateCall id n a c :: rest => (id, n, a, c) :: update_calls rest
  | _ :: rest => update_calls rest
  end.

(** The ids added to the ledger. *)
Fixpoint marks (evs : list event) : list string :=
  match evs with
  | [] => []
  | EvMark id :: rest => id :: marks rest
  | _ :: rest => marks rest
  end.

(** The store writes. *)
Fixpoint puts (evs : list event) : list (nat * list string * string * string) :=
  match evs with
  | [] => []
  | EvStorePut s ns k v :: rest => (s, ns, k, v) :: puts rest
  | _ :: rest => puts rest
  end.

(** The prompts sent to the model. *)
Fixpoint model_prompts (evs : list event) : list (list message) :=
  match evs with
  | [] => []
  | EvModelInvoke p :: rest => p :: model_prompts rest
  | _ :: rest => model_prompts rest
  end.

Definition times (x : string) (l : list string) : nat := count_occ string_dec l x.

(** ** The detector, in the words of the specification *)

(** A rejected result of an interruptible tool: its correlation
    identifier, tool name and rationale. *)
Definition rejection_of (msg : message) : option (string * string * string) :=
  match msg with
  | ToolMessage c id (Some n) st =>
      if decide (st = "error") then
        if decide (n ∈ interrupt_tools) then Some (id, n, c) else None
      else None
  | _ => None
  end.

(** The rejections a traversal of [ms] handles when it starts with the
    ledger [P]: every rejection whose identifier is not in the ledger
    when the traversal reaches it. *)
Fixpoint pending (ms : list message) (P : gset string) : list (string * string * string) :=
  match ms with
  | [] => []
  | m :: rest =>
      match rejection_of m with
      | Some (id, n, c) =>
          if decide (id ∈ P) then pending rest P
          else (id, n, c) :: pending rest ({[ id ]} ∪ P)
      | None => pending rest P
      end
  end.

(** The rejections whose identifier is not in the ledger [P], newest
    first when [ms] is the reversed history. *)
Definition detect (ms : list message) (P : gset string) : list (string * string * string) :=
  List.filter (fun p => negb (bool_decide (p.1.1 ∈ P))) (omap rejection_of ms).

Definition entry_id (p : string * string * string) : string := p.1.1.

(** An assistant tool call with the given correlation identifier. *)
Definition invocation_of (messages : list message) (tool_call_id : string) (tc : tool_call) : Prop :=
  ∃ content tcs, AIMessage content tcs ∈ messages ∧ tc ∈ tcs ∧ tc_id tc = Some tool_call_id.

(** Substring. *)
Definition contains (needle hay : string) : Prop :=
  ∃ pre post, hay = pre +:+ needle +:+ post.

Fixpoint has_prefix (p s : string) : bool :=
  match p, s with
  | EmptyString, _ => true
  | String a p', String b s' => if decide (a = b) then has_prefix p' s' else false
  | String _ _, EmptyString => false
  end.

Fixpoint has_infix (needle hay : string) : bool :=
  if has_prefix needle hay then true
  else match hay with
       | EmptyString => false
       | String _ hay' => has_infix needle hay'
       end.

(** ** One reconciliation attempt and the runs of the loop *)

(** What the body of the loop does for a rejection it handles. *)
Definition attempt (self : middleware) (state : agent_state) (rt : runtime)
    (messages : list message) (p : string * string * string) : M unit :=
  let original_args := find_original_args messages p.1.1 in
  emit (EvUpdateCall p.1.1 p.1.2 original_args p.2) >>>
  _update_memory_for_reject self p.1.2 original_args p.2 state rt >>>
  ledger_add p.1.1.

(** The prompt of the update: system instructions with the current
    profile, the history, the composed feedback. *)
Definition update_prompt (state : agent_state) (messages : list message)
    (p : string * string * string) (current_profile : string) : list message :=
  DictMessage "system" (MEMORY_UPDATE_INSTRUCTIONS_format current_profile) ::
  state_get_messages state ++
  [DictMessage "user" (reject_content p.1.2 (find_original_args messages p.1.1) p.2)].

Definition profile_of (self : middleware) (rt : runtime) (w : world) : option string :=
  store_content w (_get_store self rt) !! (update_namespace, "user_preferences").

Definition ev_call (messages : list message) (p : string * string * string) : event :=
  EvUpdateCall p.1.1 p.1.2 (find_original_args messages p.1.1) p.2.

Definition call_of (messages : list message) (p : string * string * string)
    : string * string * args_dict * string :=
  (p.1.1, p.1.2, find_original_args messages p.1.1, p.2).

Definition ev_get (self : middleware) (rt : runtime) : event :=
  EvStoreGet (_get_store self rt) update_namespace "user_preferences".

Definition ev_put (self : middleware) (rt : runtime) (v : string) : event :=
  EvStorePut (_get_store self rt) update_namespace "user_preferences" v.

Definition world_after_update (self : middleware) (rt : runtime) (id v : string) (w : world) : world :=
  World (<[_get_store self rt :=
            <[(update_namespace, "user_preferences") := v]> (store_content w (_get_store self rt))]>
           (stores w))
        ({[ id ]} ∪ processed w) (S (llm_calls w)).

Definition world_after_model_error (w : world) : world :=
  World (stores w) (processed w) (S (llm_calls w)).

(** The runs of the loop over a list of rejections to handle: each
    attempt completes (read, model call, write, mark) or raises, either
    because the profile is absent or because the model call raises. *)
Inductive runs (self : middleware) (state : agent_state) (rt : runtime)
    (messages : list message)
    : list (string * string * string) -> world -> outcome unit -> world -> list event -> Prop :=
| runs_nil w :
    runs self state rt messages [] w (Returned tt) w []
| runs_completed p L w cur v o w' evs :
    profile_of self rt w = Some cur ->
    llm_invoke (llm_calls w) (update_prompt state messages p cur) = Returned v ->
    runs self state rt messages L (world_after_update self rt p.1.1 v w) o w' evs ->
    runs self state rt messages (p :: L) w o w'
         ([ev_call messages p; ev_get self rt;
           EvModelInvoke (update_prompt state messages p cur);
           ev_put self rt v; EvMark p.1.1] ++ evs)
| runs_profile_absent p L w :
    profile_of self rt w = None ->
    runs self state rt messages (p :: L) w (Raised (AttributeError "value")) w
         [ev_call messages p; ev_get self rt]
| runs_model_raises p L w cur e :
    profile_of self rt w = Some cur ->
    llm_invoke (llm_calls w) (update_prompt state messages p cur) = Raised e ->
    runs self state rt messages (p :: L) w (Raised e) (world_after_model_error w)
         [ev_call messages p; ev_get self rt;
          EvModelInvoke (update_prompt state messages p cur)].

(** ** Concrete collaborators and histories *)

Definition ex_self : middleware := Middleware 0.

(** A world whose store 0 holds a profile; the ledger is empty. *)
Definition ex_world : world :=
  World {[ 0 := {[ (update_namespace, "user_preferences") := "Prefers short replies." ]} ]} ∅ 0.

(** A world without any profile. *)
Definition ex_world_no_profile : world := World ∅ ∅ 0.

Definition ex_call_email : tool_call :=
  ToolCall "write_email"
           (Some [("to", JStr "jane@example.com"); ("subject", JStr "Re: next week")])
           (Some "call_1").

Definition ex_call_meeting : tool_call :=
  ToolCall "schedule_meeting" (Some [("day", JStr "Tuesday")]) (Some "call_2").

Definition history_one_rejection : list message :=
  [ HumanMessage "Can we meet next Tuesday?";
    AIMessage "" [ex_call_email];
    ToolMessage "too formal" "call_1" (Some "write_email") "error" ].

Definition history_two_rejections : list message :=
  [ HumanMessage "Can we meet next Tuesday?";
    AIMessage "" [ex_call_email; ex_call_meeting];
    ToolMessage "too formal" "call_1" (Some "write_email") "error";
    ToolMessage "wrong day" "call_2" (Some "schedule_meeting") "error" ].

(** A rejection whose invocation is not in the history. *)
Definition history_orphan_rejection : list message :=
  [ HumanMessage "Can we meet next Tuesday?";
    ToolMessage "not now" "call_9" (Some "Question") "error" ].

Definition state_of (ms : list message) : agent_state := AgentState (Some ms) [].

Definition model_answers : nat -> list message -> outcome string :=
  fun _ _ => Returned "Prefers short, informal replies.".

Definition model_raises : nat -> list message -> outcome string :=
  fun _ _ => Raised (ModelError "overloaded").

(** A model that answers its first call and raises from the second on. *)
Definition model_raises_after_first : nat -> list message -> outcome string :=
  fun k _ =>
    match k with
    | 0 => Returned "Prefers short, informal replies."
    | S _ => Raised (ModelError "overloaded")
    end.

(** A stand-in for [json.dumps] on the concrete runs. *)
Definition ex_json_dumps (d : args_dict) : string :=
  match d with
  | [] => "{}"
  | _ :: _ => "{...}"
  end.

(** The store object a call goes to, for the calls to a store. *)
Definition event_store (ev : event) : option nat :=
  match ev with
  | EvStoreGet s _ _ => Some s
  | EvStorePut s _ _ _ => Some s
  | _ => None
  end.

(** A history whose only tool result is an approved, executed call. *)
Definition history_approved : list message :=
  [ HumanMessage "Can we meet next Tuesday?";
    AIMessage "" [ex_call_email];
    ToolMessage "Email sent" "call_1" (Some "write_email") "success" ].

(** A world with two stores: the placeholder of the instance (0) and the
    store of the platform (7); both hold a profile. *)
Definition ex_world_deployed : world :=
  World {[ 0 := {[ (update_namespace, "user_preferences") := "placeholder" ]};
           7 := {[ (update_namespace, "user_preferences") := "Prefers short replies." ]} ]}
        ∅ 0.

(** * Properties *)

(** ** The monad *)

Lemma result_eta {A} (r : result A) :
  Result (res_outcome r) (res_world r) (res_events r) = r.
Proof. by destruct r. Qed.

Lemma bind_ret_l {A B} (a : A) (f : A -> M B) (w : world) :
  bind (ret a) f w = f a w.
Proof. unfold bind, ret; simpl. apply result_eta. Qed.

Lemma bind_returned {A B} (m : M A) (f : A -> M B) w a :
  res_outcome (m w) = Returned a ->
  bind m f w =
  Result (res_outcome (f a (res_world (m w)))) (res_world (f a (res_world (m w))))
         (res_events (m w) ++ res_events (f a (res_world (m w)))).
Proof. intros H. unfold bind. by rewrite H. Qed.

Lemma bind_raised {A B} (m : M A) (f : A -> M B) w e :
  res_outcome (m w) = Raised e ->
  bind m f w = Result (Raised e) (res_world (m w)) (res_events (m w)).
Proof. intros H. unfold bind. by rewrite H. Qed.

(** ** The asynchronous definitions against the synchronous ones *)

Lemma aget_memory_eq s ns d : aget_memory s ns d = get_memory s ns d.
Proof. reflexivity. Qed.

Lemma aupdate_memory_eq s ns ms : aupdate_memory s ns ms = update_memory s ns ms.
Proof. reflexivity. Qed.

Lemma _aupdate_memory_for_reject_eq self n a c state rt :
  _aupdate_memory_for_reject self n a c state rt = _update_memory_for_reject self n a c state rt.
Proof. reflexivity. Qed.

Lemma abefore_model_eq self state rt :
  abefore_model self state rt = before_model self state rt.
Proof. reflexivity. Qed.

Lemma after_tool_eq self state rt w :
  after_tool self state rt w = before_model self state rt w.
Proof.
  unfold after_tool, before_model.
  destruct (state_get_messages state) as [|m ms] eqn:E; [reflexivity|].
  reflexivity.
Qed.

Lemma run_hook_eq h self state rt w :
  run_hook h self state rt w = before_model self state rt w.
Proof. destruct h; [reflexivity | apply after_tool_eq]. Qed.

(** ** One step of the loop *)

Lemma attempt_cases self state rt messages p w :
  let r := attempt self state rt messages p w in
  (profile_of self rt w = None ∧
   r = Result (Raised (AttributeError "value")) w [ev_call messages p; ev_get self rt]) ∨
  (∃ cur e, profile_of self rt w = Some cur ∧
     llm_invoke (llm_calls w) (update_prompt state messages p cur) = Raised e ∧
     r = Result (Raised e) (world_after_model_error w)
           [ev_call messages p; ev_get self rt;
            EvModelInvoke (update_prompt state messages p cur)]) ∨
  (∃ cur v, profile_of self rt w = Some cur ∧
     llm_invoke (llm_calls w) (update_prompt state messages p cur) = Returned v ∧
     r = Result (Returned tt) (world_after_update self rt p.1.1 v w)
           [ev_call messages p; ev_get self rt;
            EvModelInvoke (update_prompt state messages p cur);
            ev_put self rt v; EvMark p.1.1]).
Proof.
  destruct p as [[id n] c]. simpl.
  destruct (profile_of self rt w) as [cur|] eqn:Hcur.
  - right.
    destruct (llm_invoke (llm_calls w) (update_prompt state messages (id, n, c) cur))
      as [v|e] eqn:Hllm.
    + right. exists cur, v. split; [done|]. split; [done|].
      unfold profile_of in Hcur. unfold update_prompt in Hllm. simpl in Hllm.
      unfold attempt, _update_memory_for_reject, update_memory, bind, emit,
        store_get, invoke_model, store_put, ledger_add. simpl.
      rewrite Hcur. simpl. rewrite Hllm. simpl. reflexivity.
    + left. exists cur, e. split; [done|]. split; [done|].
      unfold profile_of in Hcur. unfold update_prompt in Hllm. simpl in Hllm.
      unfold attempt, _update_memory_for_reject, update_memory, bind, emit,
        store_get, invoke_model, store_put, ledger_add. simpl.
      rewrite Hcur. simpl. rewrite Hllm. simpl. reflexivity.
  - left. split; [done|].
    unfold profile_of in Hcur.
    unfold attempt, _update_memory_for_reject, update_memory, bind, emit,
      store_get, raise. simpl.
    rewrite Hcur. simpl. reflexivity.
Qed.

Lemma bind_ledger_contains {B} id (f : bool -> M B) w :
  bind (ledger_contains id) f w = f (bool_decide (id ∈ processed w)) w.
Proof. unfold bind, ledger_contains; simpl. apply result_eta. Qed.

Lemma body_spec self state rt messages m w :
  before_model_body self state rt messages m w =
  match rejection_of m with
  | Some p =>
      if decide (p.1.1 ∈ processed w) then Result (Returned tt) w []
      else attempt self state rt messages p w
  | None => Result (Returned tt) w []
  end.
Proof.
  destruct m as [c|c|c tcs|c id name st|role c]; try reflexivity.
  destruct name as [n|]; simpl.
  2:{ destruct (decide (st = "error")); reflexivity. }
  destruct (decide (st = "error")) as [->|Hst]; [|reflexivity].
  rewrite bind_ledger_contains.
  destruct (decide (n ∈ interrupt_tools)) as [Hn|Hn].
  - rewrite (bool_decide_eq_true_2 _ Hn). cbn [fst snd].
    destruct (decide (id ∈ processed w)) as [Hid|Hid].
    + rewrite (bool_decide_eq_true_2 _ Hid). reflexivity.
    + rewrite (bool_decide_eq_false_2 _ Hid). reflexivity.
  - rewrite (bool_decide_eq_false_2 _ Hn). reflexivity.
Qed.

(** ** The loop as a run over the pending rejections *)

Lemma for_each_attempt_runs self state rt messages L w :
  let r := for_each L (attempt self state rt messages) w in
  runs self state rt messages L w (res_outcome r) (res_world r) (res_events r).
Proof.
  revert w. induction L as [|p L IH]; intros w; simpl.
  - constructor.
  - destruct (attempt_cases self state rt messages p w)
      as [[Hp Hr]|[(cur & e & Hp & Hl & Hr)|(cur & v & Hp & Hl & Hr)]];
      unfold bind; rewrite Hr; simpl.
    + by constructor.
    + by econstructor.
    + econstructor; [done|done|]. apply IH.
Qed.

Lemma loop_pending self state rt messages ms w :
  for_each ms (before_model_body self state rt messages) w =
  for_each (pending ms (processed w)) (attempt self state rt messages) w.
Proof.
  revert w. induction ms as [|m ms IH]; intros w; [reflexivity|].
  cbn [for_each pending]. unfold bind at 1. rewrite body_spec.
  destruct (rejection_of m) as [[[id n] c]|]; cbn [fst snd].
  - destruct (decide (id ∈ processed w)) as [Hid|Hid]; cbn [res_outcome res_world res_events].
    + rewrite IH. apply result_eta.
    + cbn [for_each]. unfold bind at 1.
      destruct (attempt_cases self state rt messages (id, n, c) w)
        as [[Hp Hr]|[(cur & e & Hp & Hl & Hr)|(cur & v & Hp & Hl & Hr)]];
        rewrite Hr; cbn [res_outcome res_world res_events]; [reflexivity|reflexivity|].
      rewrite IH. reflexivity.
  - cbn [res_outcome res_world res_events]. rewrite IH. apply result_eta.
Qed.

Lemma before_model_unfold self state rt w :
  before_model self state rt w =
  let r := for_each (pending (rev (state_get_messages state)) (processed w))
                    (attempt self state rt (state_get_messages state)) w in
  Result (match res_outcome r with Returned _ => Returned None | Raised e => Raised e end)
         (res_world r) (res_events r).
Proof.
  unfold before_model, bind. rewrite loop_pending.
  destruct (for_each _ _ w) as [[[]|e] w' evs]; simpl; by rewrite ?app_nil_r.
Qed.

Lemma before_model_runs self state rt w :
  let r := before_model self state rt w in
  ∃ o, runs self state rt (state_get_messages state)
            (pending (rev (state_get_messages state)) (processed w)) w
            o (res_world r) (res_events r) ∧
       res_outcome r = match o with Returned _ => Returned None | Raised e => Raised e end.
Proof.
  cbn zeta. rewrite before_model_unfold. cbn zeta.
  eexists. split; [apply for_each_attempt_runs|]. reflexivity.
Qed.

(** ** What a run emits and changes *)

Lemma call_ids_update_calls evs : call_ids evs = map (fun q => q.1.1.1) (update_calls evs).
Proof. induction evs as [|[] evs IH]; simpl; congruence. Qed.

Lemma call_ids_app e1 e2 : call_ids (e1 ++ e2) = call_ids e1 ++ call_ids e2.
Proof. induction e1 as [|[] e1 IH]; simpl; congruence. Qed.

Lemma update_calls_app e1 e2 : update_calls (e1 ++ e2) = update_calls e1 ++ update_calls e2.
Proof. induction e1 as [|[] e1 IH]; simpl; congruence. Qed.

Lemma marks_app e1 e2 : marks (e1 ++ e2) = marks e1 ++ marks e2.
Proof. induction e1 as [|[] e1 IH]; simpl; congruence. Qed.

Lemma puts_app e1 e2 : puts (e1 ++ e2) = puts e1 ++ puts e2.
Proof. induction e1 as [|[] e1 IH]; simpl; congruence. Qed.

Lemma times_app x l1 l2 : times x (l1 ++ l2) = times x l1 + times x l2.
Proof. apply count_occ_app. Qed.

Lemma times_not_in x l : x ∉ l -> times x l = 0.
Proof. intros H. apply count_occ_not_In. by rewrite <- list_elem_of_In. Qed.

Lemma times_NoDup x l : NoDup l -> times x l ≤ 1.
Proof. intros H. apply NoDup_ListNoDup in H. by apply NoDup_count_occ. Qed.

Lemma times_in x l : x ∈ l -> 1 ≤ times x l.
Proof. intros H. apply count_occ_In. by rewrite <- list_elem_of_In. Qed.

Section Runs.
Context (self : middleware) (state : agent_state) (rt : runtime) (messages : list message).

Lemma runs_processed L w o w' evs :
  runs self state rt messages L w o w' evs ->
  processed w' = list_to_set (marks evs) ∪ processed w.
Proof.
  induction 1 as [w|p L w cur v o w' evs Hp Hl Hr IH|p L w Hp|p L w cur e Hp Hl]; simpl.
  - set_solver.
  - rewrite IH. simpl. set_solver.
  - set_solver.
  - set_solver.
Qed.

Lemma runs_marks_prefix L w o w' evs :
  runs self state rt messages L w o w' evs ->
  marks evs `prefix_of` map entry_id L.
Proof.
  induction 1 as [w|p L w cur v o w' evs Hp Hl Hr IH|p L w Hp|p L w cur e Hp Hl]; simpl.
  - done.
  - by apply prefix_cons.
  - apply prefix_nil.
  - apply prefix_nil.
Qed.

Lemma runs_calls_prefix L w o w' evs :
  runs self state rt messages L w o w' evs ->
  update_calls evs `prefix_of` map (call_of messages) L.
Proof.
  induction 1 as [w|p L w cur v o w' evs Hp Hl Hr IH|p L w Hp|p L w cur e Hp Hl]; simpl.
  - done.
  - by apply prefix_cons.
  - apply prefix_cons, prefix_nil.
  - apply prefix_cons, prefix_nil.
Qed.

Lemma runs_call_ids_prefix L w o w' evs :
  runs self state rt messages L w o w' evs ->
  call_ids evs `prefix_of` map entry_id L.
Proof.
  induction 1 as [w|p L w cur v o w' evs Hp Hl Hr IH|p L w Hp|p L w cur e Hp Hl]; simpl.
  - done.
  - by apply prefix_cons.
  - apply prefix_cons, prefix_nil.
  - apply prefix_cons, prefix_nil.
Qed.

Lemma runs_call_ids_returned L w o w' evs :
  runs self state rt messages L w o w' evs ->
  is_returned o -> call_ids evs = marks evs.
Proof.
  induction 1 as [w|p L w cur v o w' evs Hp Hl Hr IH|p L w Hp|p L w cur e Hp Hl];
    simpl; intros Ho; try done.
  by rewrite IH.
Qed.

Lemma runs_cons_head p L w o w' evs :
  runs self state rt messages (p :: L) w o w' evs ->
  ∃ tail, evs = ev_call messages p :: tail.
Proof. inversion 1; subst; eauto. Qed.

(** With the profile in place and a model that answers, every attempt
    completes. *)
Lemma runs_total L w o w' evs :
  runs self state rt messages L w o w' evs ->
  profile_of self rt w ≠ None ->
  (∀ k prompt, is_returned (llm_invoke k prompt)) ->
  o = Returned tt.
Proof.
  intros H Hprof Hllm.
  induction H as [w|p L w cur v o w' evs Hp Hl Hr IH|p L w Hp|p L w cur e Hp Hl].
  - done.
  - apply IH. unfold profile_of, store_content, world_after_update. simpl.
    rewrite lookup_total_insert_eq, lookup_insert_eq. done.
  - done.
  - specialize (Hllm (llm_calls w) (update_prompt state messages p cur)).
    rewrite Hl in Hllm. done.
Qed.

Lemma runs_returned L w o w' evs :
  runs self state rt messages L w o w' evs ->
  is_returned o ->
  update_calls evs = map (call_of messages) L ∧ marks evs = map entry_id L.
Proof.
  induction 1 as [w|p L w cur v o w' evs Hp Hl Hr IH|p L w Hp|p L w cur e Hp Hl];
    simpl; intros Ho; try done.
  destruct (IH Ho) as [-> ->]. done.
Qed.

(** A run that raises stops inside the attempt for one pending
    rejection: everything before is complete, the attempt itself has made
    neither a write nor a mark. *)
Lemma runs_raised L w e w' evs :
  runs self state rt messages L w (Raised e) w' evs ->
  ∃ done p rest pre tail,
    L = done ++ p :: rest ∧
    evs = pre ++ ev_call messages p :: tail ∧
    marks pre = map entry_id done ∧
    update_calls pre = map (call_of messages) done ∧
    processed w' = list_to_set (map entry_id done) ∪ processed w ∧
    puts tail = [] ∧ marks tail = [] ∧ update_calls tail = [] ∧
    (tail = [ev_get self rt] ∧ e = AttributeError "value" ∧ profile_of self rt w' = None
     ∨ ∃ cur k, tail = [ev_get self rt; EvModelInvoke (update_prompt state messages p cur)] ∧
          llm_invoke k (update_prompt state messages p cur) = Raised e).
Proof.
  intros H. remember (Raised e) as o eqn:Ho.
  induction H as [w|p L w cur v o w' evs Hp Hl Hr IH|p L w Hp|p L w cur e' Hp Hl].
  - done.
  - destruct (IH Ho)
      as (dn & q & rest & pre & tail & -> & -> & Hm & Hc & Hw & Hpt & Hmt & Hct & Hcase).
    exists (p :: dn), q, rest,
      ([ev_call messages p; ev_get self rt;
        EvModelInvoke (update_prompt state messages p cur);
        ev_put self rt v; EvMark p.1.1] ++ pre), tail.
    split; [done|]. split; [done|].
    split; [simpl; by rewrite Hm|].
    split; [simpl; by rewrite Hc|].
    split; [rewrite Hw; simpl; set_solver|].
    done.
  - inversion Ho; subst e.
    exists [], p, L, [], [ev_get self rt].
    split; [done|]. split; [done|]. split; [done|]. split; [done|].
    split; [simpl; set_solver|]. split; [done|]. split; [done|]. split; [done|].
    left. done.
  - inversion Ho; subst e'.
    exists [], p, L, [], [ev_get self rt; EvModelInvoke (update_prompt state messages p cur)].
    split; [done|]. split; [done|]. split; [done|]. split; [done|].
    split; [simpl; set_solver|]. split; [done|]. split; [done|]. split; [done|].
    right. by exists cur, (llm_calls w).
Qed.

(** Only the profile key of the chosen store is written. *)
Lemma runs_frame L w o w' evs :
  runs self state rt messages L w o w' evs ->
  ∀ s k, (s, k) ≠ (_get_store self rt, (update_namespace, "user_preferences")) ->
         store_content w' s !! k = store_content w s !! k.
Proof.
  induction 1 as [w|p L w cur v o w' evs Hp Hl Hr IH|p L w Hp|p L w cur e Hp Hl];
    intros s k Hne; try done.
  rewrite IH by done. unfold store_content, world_after_update. simpl.
  destruct (decide (s = _get_store self rt)) as [->|Hs].
  - rewrite lookup_total_insert_eq. rewrite lookup_insert_ne; [done|]. congruence.
  - by rewrite lookup_total_insert_ne.
Qed.

Lemma runs_puts L w o w' evs :
  runs self state rt messages L w o w' evs ->
  ∀ q, q ∈ puts evs ->
       ∃ v, q = (_get_store self rt, update_namespace, "user_preferences", v).
Proof.
  induction 1 as [w|p L w cur v o w' evs Hp Hl Hr IH|p L w Hp|p L w cur e Hp Hl];
    simpl; intros q Hq; try by apply elem_of_nil in Hq.
  apply elem_of_cons in Hq as [->|Hq]; [by exists v|by apply IH].
Qed.

(** A mark comes straight after the write of the completed update. *)
Lemma runs_mark_after_put L w o w' evs :
  runs self state rt messages L w o w' evs ->
  ∀ id, id ∈ marks evs ->
        ∃ pre v post, evs = pre ++ [ev_put self rt v; EvMark id] ++ post ∧
                      id ∈ call_ids pre.
Proof.
  induction 1 as [w|p L w cur v o w' evs Hp Hl Hr IH|p L w Hp|p L w cur e Hp Hl];
    simpl; intros id Hid; try by apply elem_of_nil in Hid.
  apply elem_of_cons in Hid as [->|Hid].
  - exists [ev_call messages p; ev_get self rt;
            EvModelInvoke (update_prompt state messages p cur)], v, evs.
    split; [done|]. simpl. by left.
  - destruct (IH id Hid) as (pre & v' & post & -> & Hin).
    exists ([ev_call messages p; ev_get self rt;
             EvModelInvoke (update_prompt state messages p cur);
             ev_put self rt v; EvMark p.1.1] ++ pre), v', post.
    split; [done|]. simpl. by right.
Qed.

End Runs.

(** ** The pending rejections *)

Lemma rejection_of_Some m id n c :
  rejection_of m = Some (id, n, c) ↔
  m = ToolMessage c id (Some n) "error" ∧ n ∈ interrupt_tools.
Proof.
  split.
  - destruct m as [?|?|??|c' id' [n'|] st|??]; simpl; try done.
    destruct (decide (st = "error")) as [->|]; [|done].
    destruct (decide (n' ∈ interrupt_tools)); [|done].
    by intros [= -> -> ->].
  - intros [-> Hn]. simpl. by rewrite decide_True.
Qed.

Lemma pending_fresh ms P p : p ∈ pending ms P -> entry_id p ∉ P.
Proof.
  revert P. induction ms as [|m ms IH]; intros P; simpl.
  - by intros ?%elem_of_nil.
  - destruct (rejection_of m) as [[[id n] c]|]; [|apply IH].
    destruct (decide (id ∈ P)); [apply IH|].
    intros [->|Hp%IH]%elem_of_cons; [done|]. set_solver.
Qed.

Lemma pending_NoDup ms P : NoDup (map entry_id (pending ms P)).
Proof.
  revert P. induction ms as [|m ms IH]; intros P; simpl.
  - constructor.
  - destruct (rejection_of m) as [[[id n] c]|]; [|apply IH].
    destruct (decide (id ∈ P)); [apply IH|].
    simpl. constructor; [|apply IH].
    intros (q & Hq & Hin)%list_elem_of_fmap.
    apply pending_fresh in Hin. unfold entry_id in *. simpl in *. set_solver.
Qed.

Lemma pending_sound ms P p :
  p ∈ pending ms P -> ∃ m, m ∈ ms ∧ rejection_of m = Some p.
Proof.
  revert P. induction ms as [|m ms IH]; intros P; simpl.
  - by intros ?%elem_of_nil.
  - destruct (rejection_of m) as [[[id n] c]|] eqn:Hm.
    + destruct (decide (id ∈ P)).
      * intros (m' & ? & ?)%IH. exists m'. split; [by right|done].
      * intros [->|(m' & ? & ?)%IH]%elem_of_cons.
        -- exists m. split; [by left|done].
        -- exists m'. split; [by right|done].
    + intros (m' & ? & ?)%IH. exists m'. split; [by right|done].
Qed.

Lemma pending_complete ms P m p :
  m ∈ ms -> rejection_of m = Some p -> entry_id p ∉ P ->
  entry_id p ∈ map entry_id (pending ms P).
Proof.
  revert P. induction ms as [|m0 ms IH]; intros P Hin Hm Hp.
  - by apply elem_of_nil in Hin.
  - simpl. apply elem_of_cons in Hin as [<-|Hin].
    + rewrite Hm. destruct p as [[id n] c]. unfold entry_id in *. simpl in *.
      rewrite decide_False by done. simpl. by left.
    + destruct (rejection_of m0) as [[[id0 n0] c0]|]; [|by apply IH].
      destruct (decide (id0 ∈ P)); [by apply IH|].
      simpl. destruct (decide (entry_id p = id0)) as [->|Hne]; [by left|].
      right. apply IH; [done|done|]. unfold entry_id in *. set_solver.
Qed.

Lemma pending_skip ms P q L :
  pending ms P = q :: L -> pending ms ({[ entry_id q ]} ∪ P) = L.
Proof.
  revert P. induction ms as [|m ms IH]; intros P; simpl; [done|].
  destruct (rejection_of m) as [[[id n] c]|]; [|apply IH].
  destruct (decide (id ∈ P)) as [Hid|Hid].
  - intros H. rewrite decide_True by set_solver. by apply IH.
  - intros [= <- <-]. unfold entry_id. simpl. rewrite decide_True by set_solver. done.
Qed.

Lemma pending_resume ms P dn p rest :
  pending ms P = dn ++ p :: rest ->
  pending ms (list_to_set (map entry_id dn) ∪ P) = p :: rest.
Proof.
  revert P. induction dn as [|q dn IH]; intros P H; simpl in *.
  - by rewrite (left_id_L ∅ (∪)).
  - apply pending_skip in H. apply IH in H.
    replace ({[entry_id q]} ∪ list_to_set (map entry_id dn) ∪ P)
      with (list_to_set (map entry_id dn) ∪ ({[entry_id q]} ∪ P)) by set_solver.
    done.
Qed.

(** With pairwise distinct identifiers the pending rejections are the
    rejections whose identifier is not in the ledger at the start. *)
Lemma detect_extend ms P id :
  id ∉ map entry_id (omap rejection_of ms) ->
  detect ms ({[ id ]} ∪ P) = detect ms P.
Proof.
  unfold detect. induction (omap rejection_of ms) as [|q L IH]; simpl; [done|].
  intros Hid. apply not_elem_of_cons in Hid as [Hne Hid].
  rewrite IH by done.
  destruct (decide (q.1.1 ∈ P)) as [Hq|Hq].
  - rewrite !bool_decide_eq_true_2 by set_solver. done.
  - rewrite !bool_decide_eq_false_2; [done|done|]. unfold entry_id in Hne. set_solver.
Qed.

Lemma pending_detect ms P :
  NoDup (map entry_id (omap rejection_of ms)) -> pending ms P = detect ms P.
Proof.
  revert P. induction ms as [|m ms IH]; intros P Hnd; [done|].
  simpl in *. unfold detect in *. simpl.
  destruct (rejection_of m) as [[[id n] c]|]; [|by apply IH].
  simpl in Hnd. apply NoDup_cons in Hnd as [Hid Hnd]. simpl.
  destruct (decide (id ∈ P)) as [Hin|Hin].
  - rewrite bool_decide_eq_true_2 by done. simpl. by apply IH.
  - rewrite bool_decide_eq_false_2 by done. simpl. f_equal.
    rewrite IH by done. by apply detect_extend.
Qed.

(** ** One hook invocation, any sequence of hook invocations *)

Lemma prefix_NoDup {A} (l1 l2 : list A) : l1 `prefix_of` l2 -> NoDup l2 -> NoDup l1.
Proof. intros [k ->] H. by apply NoDup_app in H as [? _]. Qed.

Section Hooks.
Context (self : middleware) (state : agent_state) (rt : runtime).

Let ms := state_get_messages state.

Lemma hook_runs h w :
  let r := run_hook h self state rt w in
  ∃ o, runs self state rt ms (pending (rev ms) (processed w)) w
            o (res_world r) (res_events r) ∧
       res_outcome r = match o with Returned _ => Returned None | Raised e => Raised e end.
Proof. cbn zeta. rewrite run_hook_eq. apply before_model_runs. Qed.

Lemma hook_summary h w :
  let r := run_hook h self state rt w in
  processed (res_world r) = list_to_set (marks (res_events r)) ∪ processed w ∧
  NoDup (marks (res_events r)) ∧
  NoDup (call_ids (res_events r)) ∧
  (∀ x, x ∈ marks (res_events r) -> x ∉ processed w) ∧
  (∀ x, x ∈ call_ids (res_events r) -> x ∉ processed w) ∧
  (is_returned (res_outcome r) ->
     call_ids (res_events r) = marks (res_events r) ∧
     marks (res_events r) = map entry_id (pending (rev ms) (processed w))).
Proof.
  cbn zeta. destruct (hook_runs h w) as (o & Hruns & Ho).
  pose proof (pending_NoDup (rev ms) (processed w)) as Hnd.
  pose proof (runs_marks_prefix _ _ _ _ _ _ _ _ _ Hruns) as Hmp.
  pose proof (runs_call_ids_prefix _ _ _ _ _ _ _ _ _ Hruns) as Hcp.
  assert (∀ x l, l `prefix_of` map entry_id (pending (rev ms) (processed w)) ->
                 x ∈ l -> x ∉ processed w) as Hfresh.
  { intros x l Hl Hx. eapply elem_of_prefix in Hx; [|done].
    apply list_elem_of_fmap in Hx as (q & -> & Hq). by eapply pending_fresh. }
  split; [by eapply runs_processed|].
  split; [by eapply prefix_NoDup|].
  split; [by eapply prefix_NoDup|].
  split; [by eauto|]. split; [by eauto|].
  intros Hret. rewrite Ho in Hret.
  assert (is_returned o) as Ho' by (by destruct o).
  split; [by eapply runs_call_ids_returned|].
  by eapply runs_returned.
Qed.

Lemma turn_summary hs w :
  let t := run_hooks hs self state rt w in
  processed (turn_world t) = list_to_set (marks (turn_events t)) ∪ processed w ∧
  NoDup (marks (turn_events t)) ∧
  (∀ x, x ∈ marks (turn_events t) -> x ∉ processed w) ∧
  (∀ x, x ∈ call_ids (turn_events t) -> x ∉ processed w) ∧
  (Forall is_returned (turn_outcomes t) ->
     call_ids (turn_events t) = marks (turn_events t)).
Proof.
  revert w. induction hs as [|h hs IH]; intros w; cbn zeta.
  - simpl. split; [set_solver|]. split; [constructor|].
    split; [by intros ? ?%elem_of_nil|]. split; [by intros ? ?%elem_of_nil|]. done.
  - cbn [run_hooks turn_world turn_events turn_outcomes].
    destruct (hook_summary h w) as (Hw1 & Hnd1 & _ & Hm1 & Hc1 & Hret1).
    destruct (IH (res_world (run_hook h self state rt w))) as (Hw2 & Hnd2 & Hm2 & Hc2 & Hret2).
    rewrite marks_app, call_ids_app.
    split; [rewrite Hw2, Hw1, list_to_set_app_L; set_solver|].
    split.
    { apply NoDup_app. split; [done|]. split; [|done].
      intros x Hx Hx2. apply Hm2 in Hx2. rewrite Hw1 in Hx2. set_solver. }
    split.
    { intros x [Hx|Hx]%elem_of_app; [by apply Hm1|].
      apply Hm2 in Hx. rewrite Hw1 in Hx. set_solver. }
    split.
    { intros x [Hx|Hx]%elem_of_app; [by apply Hc1|].
      apply Hc2 in Hx. rewrite Hw1 in Hx. set_solver. }
    intros [Hr1 Hr2]%Forall_cons.
    destruct (Hret1 Hr1) as [-> _]. by rewrite (Hret2 Hr2).
Qed.

End Hooks.

(** ** Deduplication across the hooks *)

(** The identifier whose update raised in a hook invocation: when the
    invocation raised, the last identifier handed to the updater. *)
Definition failed_attempt {A} (r : result A) : list string :=
  match res_outcome r with
  | Raised _ =>
      match last (call_ids (res_events r)) with
      | Some id => [id]
      | None => []
      end
  | Returned _ => []
  end.

(** The identifiers whose update raised over a sequence of hook
    invocations, one entry per invocation that raised. *)
Fixpoint failed_attempts (hs : list hook) (self : middleware) (state : agent_state)
    (rt : runtime) (w : world) : list string :=
  match hs with
  | [] => []
  | h :: rest =>
      let r := run_hook h self state rt w in
      failed_attempt r ++ failed_attempts rest self state rt (res_world r)
  end.

(** A hook invocation that raises stopped inside the attempt for one
    pending rejection [p]: the rejections before it are complete and
    marked, [p] and the rejections after it are not in the ledger, the
    attempt made no write and no mark, and any next invocation starts
    with the updater call for [p]. *)
Lemma hook_raised h self state rt w e :
  let r := run_hook h self state rt w in
  let ms := state_get_messages state in
  res_outcome r = Raised e ->
  ∃ dn p rest pre tail,
    pending (rev ms) (processed w) = dn ++ p :: rest ∧
    res_events r = pre ++ ev_call ms p :: tail ∧
    marks pre = map entry_id dn ∧
    update_calls pre = map (call_of ms) dn ∧
    puts tail = [] ∧ marks tail = [] ∧ update_calls tail = [] ∧
    processed (res_world r) = list_to_set (map entry_id dn) ∪ processed w ∧
    (∀ q, q ∈ p :: rest -> entry_id q ∉ processed (res_world r)) ∧
    ((tail = [ev_get self rt] ∧ e = AttributeError "value") ∨
     (∃ cur k, tail = [ev_get self rt; EvModelInvoke (update_prompt state ms p cur)] ∧
               llm_invoke k (update_prompt state ms p cur) = Raised e)) ∧
    (∀ h2, ∃ tail2,
       res_events (run_hook h2 self state rt (res_world r)) = ev_call ms p :: tail2).
Proof.
  cbn zeta. intros He.
  destruct (hook_runs self state rt h w) as (o & Hruns & Ho).
  rewrite He in Ho. destruct o as [[]|e']; [done|]. injection Ho as ->.
  destruct (runs_raised _ _ _ _ _ _ _ _ _ Hruns)
    as (dn & p & rest & pre & tail & HL & Hevs & Hm & Hc & Hw & Hpt & Hmt & Hct & Hcase).
  exists dn, p, rest, pre, tail.
  split; [done|]. split; [done|]. split; [done|]. split; [done|].
  split; [done|]. split; [done|]. split; [done|]. split; [done|].
  split.
  { intros q Hq. rewrite Hw. intros [Hin|Hin]%elem_of_union.
    - pose proof (pending_NoDup (rev (state_get_messages state)) (processed w)) as Hnd.
      rewrite HL, map_app in Hnd.
      apply NoDup_app in Hnd as (_ & Hdis & _).
      apply elem_of_list_to_set in Hin. apply (Hdis _ Hin).
      apply list_elem_of_fmap. by exists q.
    - eapply pending_fresh; [|exact Hin]. rewrite HL. apply elem_of_app. by right. }
  split.
  { destruct Hcase as [(? & ? & _)|?]; [by left|by right]. }
  intros h2.
  destruct (hook_runs self state rt h2 (res_world (run_hook h self state rt w)))
    as (o2 & Hruns2 & _).
  rewrite Hw in Hruns2. rewrite (pending_resume _ _ _ _ _ HL) in Hruns2.
  by eapply runs_cons_head.
Qed.

Lemma call_ids_of_calls (ms : list message) L :
  map (fun q : string * string * args_dict * string => q.1.1.1) (map (call_of ms) L)
  = map entry_id L.
Proof. induction L as [|q L IH]; simpl; [done|by rewrite IH]. Qed.

(** Every updater call of an invocation is followed by its mark, except
    the one whose update raised. *)
Lemma hook_accounting h self state rt w :
  let r := run_hook h self state rt w in
  call_ids (res_events r) = marks (res_events r) ++ failed_attempt r.
Proof.
  cbn zeta. unfold failed_attempt.
  destruct (res_outcome (run_hook h self state rt w)) as [a|e] eqn:Ho.
  - destruct (hook_summary self state rt h w) as (_ & _ & _ & _ & _ & Hret).
    rewrite Ho in Hret. destruct (Hret I) as [-> _]. by rewrite app_nil_r.
  - destruct (hook_raised h self state rt w e Ho)
      as (dn & p & rest & pre & tail & _ & Hevs & Hm & Hc & _ & Hmt & Hct & _).
    assert (call_ids (res_events (run_hook h self state rt w)) = map entry_id dn ++ [entry_id p])
      as Hcalls.
    { rewrite Hevs, call_ids_app. cbn [call_ids ev_call].
      rewrite (call_ids_update_calls pre), Hc, call_ids_of_calls.
      rewrite (call_ids_update_calls tail), Hct. done. }
    assert (marks (res_events (run_hook h self state rt w)) = map entry_id dn) as Hmarks.
    { rewrite Hevs, marks_app. cbn [marks ev_call]. rewrite Hm, Hmt. by rewrite app_nil_r. }
    rewrite Hcalls, Hmarks, last_snoc. done.
Qed.

Lemma turn_accounting self state rt hs w X :
  let t := run_hooks hs self state rt w in
  times X (call_ids (turn_events t))
  = times X (marks (turn_events t)) + times X (failed_attempts hs self state rt w).
Proof.
  revert w. induction hs as [|h hs IH]; intros w; cbn zeta; [done|].
  cbn [run_hooks turn_events failed_attempts].
  rewrite call_ids_app, marks_app, !times_app, hook_accounting, times_app.
  cbn zeta in IH. rewrite IH. lia.
Qed.

(** An invocation that returns leaves every rejected result of an
    interruptible tool in the ledger. *)
Lemma hook_returned_covers h self state rt w X n c :
  is_returned (res_outcome (run_hook h self state rt w)) ->
  ToolMessage c X (Some n) "error" ∈ state_get_messages state ->
  n ∈ interrupt_tools ->
  X ∈ processed (res_world (run_hook h self state rt w)).
Proof.
  intros Hret Hin Hn.
  destruct (hook_summary self state rt h w) as (Hw & _ & _ & _ & _ & Hr).
  destruct (Hr Hret) as [_ Hmarks]. rewrite Hw, Hmarks.
  destruct (decide (X ∈ processed w)) as [HX|HX]; [set_solver|].
  apply elem_of_union. left. apply elem_of_list_to_set.
  change X with (entry_id (X, n, c)).
  eapply (pending_complete _ _ (ToolMessage c X (Some n) "error")).
  - apply list_elem_of_In, in_rev. rewrite rev_involutive. by apply list_elem_of_In.
  - by apply rejection_of_Some.
  - done.
Qed.

Lemma turn_some_returned self state rt hs w X n c :
  Exists is_returned (turn_outcomes (run_hooks hs self state rt w)) ->
  ToolMessage c X (Some n) "error" ∈ state_get_messages state ->
  n ∈ interrupt_tools ->
  X ∈ processed (turn_world (run_hooks hs self state rt w)).
Proof.
  intros Hex Hin Hn. revert w Hex.
  induction hs as [|h hs IH]; intros w Hex; cbn [run_hooks turn_outcomes turn_world] in *.
  - by apply Exists_nil in Hex.
  - apply Exists_cons in Hex as [Hret|Hex]; [|by apply IH].
    destruct (turn_summary self state rt hs (res_world (run_hook h self state rt w)))
      as (Hw & _).
    rewrite Hw. apply elem_of_union. right. by eapply hook_returned_covers.
Qed.

(** C1 (as amended): over any sequence of [before_model] and
    [after_tool] invocations on a history, an identifier is added to the
    ledger at most once; an identifier already in the ledger causes no
    updater call and no mark (the attempt is a no-op); the number of
    updater calls for an identifier is the number of its marks plus the
    number of invocations that raised inside its update, so the updater
    is called at most once for an identifier whose own update did not
    raise; an identifier that was not in the ledger is in the ledger
    at the end exactly when it was marked once, and, when it has a
    rejected result of an interruptible tool in the history, it is
    marked exactly once as soon as one invocation returns (and called
    exactly once when all return); an invocation that raises inside the
    update for an identifier does not mark it, and the next invocation
    starts with the updater call for it. *)
Theorem dedup_across_hooks (hs : list hook) self state rt (w : world) (X : string) :
  let t := run_hooks hs self state rt w in
  times X (marks (turn_events t)) ≤ 1 ∧
  (X ∈ processed w ->
     times X (call_ids (turn_events t)) = 0 ∧ times X (marks (turn_events t)) = 0) ∧
  (Forall is_returned (turn_outcomes t) ->
     times X (call_ids (turn_events t)) ≤ 1 ∧
     (hs ≠ [] -> X ∉ processed w ->
      (∃ n c, ToolMessage c X (Some n) "error" ∈ state_get_messages state ∧
              n ∈ interrupt_tools) ->
      times X (call_ids (turn_events t)) = 1 ∧
      times X (marks (turn_events t)) = 1 ∧
      X ∈ processed (turn_world t))) ∧
  times X (call_ids (turn_events t))
    = times X (marks (turn_events t)) + times X (failed_attempts hs self state rt w) ∧
  (X ∉ failed_attempts hs self state rt w -> times X (call_ids (turn_events t)) ≤ 1) ∧
  (Exists is_returned (turn_outcomes t) -> X ∉ processed w ->
   (∃ n c, ToolMessage c X (Some n) "error" ∈ state_get_messages state ∧
           n ∈ interrupt_tools) ->
   times X (marks (turn_events t)) = 1 ∧ X ∈ processed (turn_world t) ∧
   times X (call_ids (turn_events t)) = 1 + times X (failed_attempts hs self state rt w)) ∧
  (X ∉ processed w ->
   (X ∈ processed (turn_world t) ↔ times X (marks (turn_events t)) = 1)) ∧
  (∀ h e, let r := run_hook h self state rt w in
     res_outcome r = Raised e -> failed_attempt r = [X] ->
     (X ∉ marks (res_events r)) ∧ (X ∉ processed (res_world r)) ∧
     (∀ h2, ∃ tl,
        call_ids (res_events (run_hook h2 self state rt (res_world r))) = X :: tl)).
Proof.
  cbn zeta.
  destruct (turn_summary self state rt hs w) as (Hw & Hnd & Hm & Hc & Hret).
  pose proof (turn_accounting self state rt hs w X) as Hacc. cbn zeta in Hacc.
  split; [by apply times_NoDup|].
  split.
  { intros HX. split; apply times_not_in; intros Hin; [by apply Hc in Hin|by apply Hm in Hin]. }
  split.
  { intros Hall. rewrite (Hret Hall).
    split; [by apply times_NoDup|].
    intros Hhs HX (n & c & Hin & Hn).
    assert (X ∈ marks (turn_events (run_hooks hs self state rt w))) as HXm.
    { destruct hs as [|h hs]; [done|].
      cbn [run_hooks turn_events turn_outcomes] in *.
      apply Forall_cons in Hall as [Hr1 _].
      destruct (hook_summary self state rt h w) as (_ & _ & _ & _ & _ & Hret1).
      destruct (Hret1 Hr1) as [_ Hmarks].
      rewrite marks_app, Hmarks. apply elem_of_app. left.
      change X with (entry_id (X, n, c)).
      eapply (pending_complete _ _ (ToolMessage c X (Some n) "error")).
      - apply list_elem_of_In, in_rev. rewrite rev_involutive. by apply list_elem_of_In.
      - by apply rejection_of_Some.
      - done. }
    assert (times X (marks (turn_events (run_hooks hs self state rt w))) = 1) as Hone.
    { pose proof (times_in _ _ HXm). pose proof (times_NoDup X _ Hnd). lia. }
    split; [done|]. split; [done|].
    rewrite Hw. set_solver. }
  split; [exact Hacc|].
  split.
  { intros Hnf. rewrite Hacc, (times_not_in _ _ Hnf).
    pose proof (times_NoDup X _ Hnd). lia. }
  split.
  { intros Hex HX (n & c & Hin & Hn).
    pose proof (turn_some_returned self state rt hs w X n c Hex Hin Hn) as Hfinal.
    assert (times X (marks (turn_events (run_hooks hs self state rt w))) = 1) as Hone.
    { rewrite Hw in Hfinal. apply elem_of_union in Hfinal as [Hfinal|Hfinal]; [|done].
      apply elem_of_list_to_set in Hfinal.
      pose proof (times_in _ _ Hfinal). pose proof (times_NoDup X _ Hnd). lia. }
    split; [done|]. split; [done|]. rewrite Hacc, Hone. done. }
  split.
  { intros HX. rewrite Hw, elem_of_union, elem_of_list_to_set. split.
    - intros [Hin|Hin]; [|done].
      pose proof (times_in _ _ Hin). pose proof (times_NoDup X _ Hnd). lia.
    - intros Hone. left. apply list_elem_of_In.
      apply (count_occ_In string_dec). unfold times in Hone. lia. }
  intros h e Hraised Hfailed.
  destruct (hook_raised h self state rt w e Hraised)
    as (dn & p & rest & pre & tail & HL & Hevs & Hmp & Hcp & _ & Hmt & Hct & Hw' & Hrest & _ & Hretry).
  assert (entry_id p = X) as <-.
  { unfold failed_attempt in Hfailed. rewrite Hraised in Hfailed.
    rewrite Hevs, call_ids_app in Hfailed. cbn [call_ids ev_call] in Hfailed.
    rewrite (call_ids_update_calls tail), Hct in Hfailed. cbn [map] in Hfailed.
    rewrite last_snoc in Hfailed. by injection Hfailed. }
  assert (entry_id p ∉ processed (res_world (run_hook h self state rt w))) as Hnot.
  { apply Hrest. by left. }
  split.
  { intros Hin. apply Hnot. rewrite Hw'. apply elem_of_union. left.
    apply elem_of_list_to_set. rewrite <- Hmp.
    rewrite Hevs, marks_app in Hin. cbn [marks ev_call] in Hin. rewrite Hmt in Hin.
    by rewrite app_nil_r in Hin. }
  split; [done|].
  intros h2. destruct (Hretry h2) as [tail2 ->]. by eexists.
Qed.

(** ** What one hook invocation processes *)

(** C2 (as amended): one invocation of [before_model] or [after_tool]
    calls the profile updater only for results with status "error" of a
    tool in the interruptible set whose identifier is not in the ledger,
    newest first; when the invocation returns (no updater call raises),
    it has called the updater for every such result whose identifier was
    not in the ledger when the traversal reached it, once per
    identifier, and the ledger then holds exactly the old identifiers
    and the identifiers of the rejected interruptible results; when an
    updater call raises, the traversal ends at that entry: the updater
    was called for the pending rejections up to and including it, the
    ones before it are marked, and it and the ones after it are not in
    the ledger. *)
Theorem hook_processes_pending (h : hook) self state rt (w : world) :
  let r := run_hook h self state rt w in
  let ms := state_get_messages state in
  let L := pending (rev ms) (processed w) in
  update_calls (res_events r) `prefix_of` map (call_of ms) L ∧
  (∀ id n a c, (id, n, a, c) ∈ update_calls (res_events r) ->
     ToolMessage c id (Some n) "error" ∈ ms ∧ n ∈ interrupt_tools ∧ id ∉ processed w) ∧
  (NoDup (map entry_id (omap rejection_of (rev ms))) -> L = detect (rev ms) (processed w)) ∧
  (is_returned (res_outcome r) ->
     update_calls (res_events r) = map (call_of ms) L ∧
     marks (res_events r) = map entry_id L ∧
     (∀ id, id ∈ processed (res_world r) ↔
            id ∈ processed w ∨
            ∃ n c, ToolMessage c id (Some n) "error" ∈ ms ∧ n ∈ interrupt_tools) ∧
     (∀ id n c, ToolMessage c id (Some n) "error" ∈ ms -> n ∈ interrupt_tools ->
                id ∉ processed w ->
                times id (call_ids (res_events r)) = 1 ∧ id ∈ processed (res_world r))) ∧
  (∀ e, res_outcome r = Raised e ->
     ∃ dn p rest,
       L = dn ++ p :: rest ∧
       update_calls (res_events r) = map (call_of ms) (dn ++ [p]) ∧
       marks (res_events r) = map entry_id dn ∧
       processed (res_world r) = list_to_set (map entry_id dn) ∪ processed w ∧
       (∀ q, q ∈ p :: rest -> entry_id q ∉ processed (res_world r))).
Proof.
  cbn zeta.
  assert (∀ e, res_outcome (run_hook h self state rt w) = Raised e ->
     ∃ dn p rest,
       pending (rev (state_get_messages state)) (processed w) = dn ++ p :: rest ∧
       update_calls (res_events (run_hook h self state rt w))
         = map (call_of (state_get_messages state)) (dn ++ [p]) ∧
       marks (res_events (run_hook h self state rt w)) = map entry_id dn ∧
       processed (res_world (run_hook h self state rt w))
         = list_to_set (map entry_id dn) ∪ processed w ∧
       (∀ q, q ∈ p :: rest ->
             entry_id q ∉ processed (res_world (run_hook h self state rt w)))) as Hraised.
  { intros e He.
    destruct (hook_raised h self state rt w e He)
      as (dn & p & rest & pre & tail & HL & Hevs & Hmp & Hcp & _ & Hmt & Hct & Hw' & Hrest & _).
    exists dn, p, rest. split; [done|].
    split.
    { rewrite Hevs, update_calls_app. cbn [update_calls ev_call].
      rewrite Hcp, Hct, map_app. done. }
    split.
    { rewrite Hevs, marks_app. cbn [marks ev_call]. rewrite Hmp, Hmt. by rewrite app_nil_r. }
    done. }
  destruct (hook_runs self state rt h w) as (o & Hruns & Ho).
  pose proof (runs_calls_prefix _ _ _ _ _ _ _ _ _ Hruns) as Hpre.
  assert (∀ id n c, ToolMessage c id (Some n) "error" ∈ state_get_messages state ->
                    n ∈ interrupt_tools -> id ∉ processed w ->
                    id ∈ map entry_id (pending (rev (state_get_messages state)) (processed w)))
    as Hcomplete.
  { intros id n c Hin Hn Hid. change id with (entry_id (id, n, c)).
    eapply (pending_complete _ _ (ToolMessage c id (Some n) "error")).
    - apply list_elem_of_In, in_rev. rewrite rev_involutive. by apply list_elem_of_In.
    - by apply rejection_of_Some.
    - done. }
  assert (∀ p, p ∈ pending (rev (state_get_messages state)) (processed w) ->
               ToolMessage p.2 p.1.1 (Some p.1.2) "error" ∈ state_get_messages state ∧
               p.1.2 ∈ interrupt_tools ∧ p.1.1 ∉ processed w) as Hsound.
  { intros [[id n] c] Hp. pose proof (pending_fresh _ _ _ Hp) as Hfresh.
    apply pending_sound in Hp as (m & Hm & Hrej).
    apply rejection_of_Some in Hrej as [-> Hn].
    split; [|done]. apply list_elem_of_In, in_rev, list_elem_of_In. done. }
  split; [done|].
  split.
  { intros id n a c Hin. eapply elem_of_prefix in Hin; [|done].
    apply list_elem_of_fmap in Hin as (q & Hq & Hin).
    unfold call_of in Hq. injection Hq as -> -> -> ->. by apply Hsound. }
  split; [apply pending_detect|].
  split; [|exact Hraised].
  intros Hret. rewrite Ho in Hret.
  assert (is_returned o) as Ho' by (by destruct o).
  destruct (runs_returned _ _ _ _ _ _ _ _ _ Hruns Ho') as [Hcalls Hmarks].
  pose proof (runs_processed _ _ _ _ _ _ _ _ _ Hruns) as Hw.
  assert (∀ id, id ∈ processed (res_world (run_hook h self state rt w)) ↔
            id ∈ processed w ∨
            ∃ n c, ToolMessage c id (Some n) "error" ∈ state_get_messages state ∧
                   n ∈ interrupt_tools) as Hiff.
  { intros id. rewrite Hw, Hmarks, elem_of_union, elem_of_list_to_set. split.
    - intros [Hin|Hin]; [|by left].
      apply list_elem_of_fmap in Hin as (q & -> & Hq).
      right. exists q.1.2, q.2. apply Hsound in Hq. tauto.
    - intros [Hin|(n & c & Hin & Hn)]; [by right|].
      destruct (decide (id ∈ processed w)); [by right|]. left. eauto. }
  split; [done|]. split; [done|]. split; [done|].
  intros id n c Hin Hn Hid. split.
  - rewrite (runs_call_ids_returned _ _ _ _ _ _ _ _ _ Hruns Ho'), Hmarks.
    pose proof (times_in id _ (Hcomplete id n c Hin Hn Hid)).
    pose proof (times_NoDup id _ (pending_NoDup (rev (state_get_messages state)) (processed w))).
    lia.
  - apply Hiff. right. eauto.
Qed.

(** ** Reconstruction of the original arguments *)

Lemma first_matching_call_None tcs id :
  first_matching_call tcs id = None ↔ ∀ tc, tc ∈ tcs -> tc_id tc ≠ Some id.
Proof.
  induction tcs as [|tc tcs IH]; simpl.
  - split; [by intros _ ? ?%elem_of_nil|done].
  - destruct (decide (tc_id tc = Some id)) as [Heq|Hne].
    + split; [done|]. intros H. exfalso. apply (H tc); [by left|done].
    + rewrite IH. split.
      * intros H tc' [->|Hin]%elem_of_cons; [done|by apply H].
      * intros H tc' Hin. apply H. by right.
Qed.

Lemma first_matching_call_Some tcs id a :
  first_matching_call tcs id = Some a ->
  ∃ tc, tc ∈ tcs ∧ tc_id tc = Some id ∧ a = default [] (tc_args tc).
Proof.
  induction tcs as [|tc tcs IH]; simpl; [done|].
  destruct (decide (tc_id tc = Some id)) as [Heq|Hne].
  - intros [= <-]. exists tc. split; [by left|done].
  - intros (tc' & ? & ? & ?)%IH. exists tc'. split; [by right|done].
Qed.

Definition matches_in (msgs : list message) (id : string) (tc : tool_call) : Prop :=
  ∃ content tcs, AIMessage content tcs ∈ msgs ∧ tc ∈ tcs ∧ tc_id tc = Some id.

Lemma matches_in_cons m msgs id tc :
  matches_in msgs id tc -> matches_in (m :: msgs) id tc.
Proof. intros (c & tcs & ? & ? & ?). exists c, tcs. split; [by right|done]. Qed.

Lemma scan_no_match msgs id acc :
  (∀ tc, ¬ matches_in msgs id tc) -> scan_original_args msgs id acc = acc.
Proof.
  revert acc. induction msgs as [|m msgs IH]; intros acc Hno; [done|].
  assert (∀ tc, ¬ matches_in msgs id tc) as Hno'.
  { intros tc H. by apply (Hno tc), matches_in_cons. }
  destruct m as [?|?|c tcs|????|??]; simpl; try by apply IH.
  assert (first_matching_call tcs id = None) as ->.
  { apply first_matching_call_None. intros tc Hin Hid.
    apply (Hno tc). exists c, tcs. split; [by left|done]. }
  destruct (dict_truthy acc); [done|by apply IH].
Qed.

Lemma scan_result msgs id acc :
  scan_original_args msgs id acc = acc ∨
  ∃ tc, matches_in msgs id tc ∧ scan_original_args msgs id acc = default [] (tc_args tc).
Proof.
  revert acc. induction msgs as [|m msgs IH]; intros acc; [by left|].
  assert (∀ acc',
    scan_original_args msgs id acc' = acc' ∨
    ∃ tc, matches_in (m :: msgs) id tc ∧
          scan_original_args msgs id acc' = default [] (tc_args tc)) as IH'.
  { intros acc'. destruct (IH acc') as [?|(tc & ? & ?)]; [by left|].
    right. exists tc. split; [by apply matches_in_cons|done]. }
  destruct m as [?|?|c tcs|????|??]; simpl; try apply IH'.
  destruct (first_matching_call tcs id) as [a|] eqn:Hfirst.
  - apply first_matching_call_Some in Hfirst as (tc & Hin & Hid & ->).
    assert (matches_in (AIMessage c tcs :: msgs) id tc) as Hm.
    { exists c, tcs. split; [by left|done]. }
    destruct (dict_truthy (default [] (tc_args tc))); [right; eauto|].
    destruct (IH' (default [] (tc_args tc))) as [->|?]; [right; eauto|by right].
  - destruct (dict_truthy acc); [by left|apply IH'].
Qed.

(** The accumulator is falsy whenever the loop goes on. *)
Lemma scan_match msgs id acc :
  dict_truthy acc = false ->
  (∃ tc, matches_in msgs id tc) ->
  ∃ tc, matches_in msgs id tc ∧ scan_original_args msgs id acc = default [] (tc_args tc).
Proof.
  revert acc.
  induction msgs as [|m msgs IH]; intros acc Hacc (tc0 & c0 & tcs0 & Hin0 & Htc0 & Hid0).
  - by apply elem_of_nil in Hin0.
  - assert (m ≠ AIMessage c0 tcs0 ->
            ∃ tc, matches_in (m :: msgs) id tc ∧
                  scan_original_args msgs id acc = default [] (tc_args tc)) as Hrest.
    { intros Hne. apply elem_of_cons in Hin0 as [?|Hin0]; [done|].
      destruct (IH acc Hacc) as (tc & ? & ?); [by exists tc0, c0, tcs0|].
      exists tc. split; [by apply matches_in_cons|done]. }
    destruct m as [?|?|c tcs|????|??]; simpl; try by apply Hrest.
    destruct (first_matching_call tcs id) as [a|] eqn:Hfirst.
    + apply first_matching_call_Some in Hfirst as (tc & Hin & Hid & ->).
      assert (matches_in (AIMessage c tcs :: msgs) id tc) as Hm.
      { exists c, tcs. split; [by left|done]. }
      destruct (dict_truthy (default [] (tc_args tc))); [eauto|].
      destruct (scan_result msgs id (default [] (tc_args tc))) as [->|(tc' & ? & ?)]; [eauto|].
      exists tc'. split; [by apply matches_in_cons|done].
    + rewrite Hacc. apply Hrest.
      intros [= -> ->]. rewrite first_matching_call_None in Hfirst. by apply (Hfirst tc0).
Qed.

Lemma matches_in_rev messages id tc :
  matches_in (rev messages) id tc ↔ invocation_of messages id tc.
Proof.
  unfold matches_in, invocation_of.
  split; intros (c & tcs & Hin & ?); exists c, tcs; (split; [|done]).
  - by apply list_elem_of_In, in_rev, list_elem_of_In.
  - apply list_elem_of_In, in_rev. rewrite rev_involutive. by apply list_elem_of_In.
Qed.

(** C3: when no assistant message of the history carries a tool call
    with the identifier, the reconstruction yields the empty mapping (it
    is a total function, it cannot raise) and the hook goes on to call
    the profile updater with empty arguments, which the composed
    feedback then embeds; when a matching tool call exists, the result is
    the argument mapping of a matching call, and of the matching call
    when there is only one. *)
Theorem original_args_reconstruction self state rt (id : string) :
  let messages := state_get_messages state in
  ((∀ tc, ¬ invocation_of messages id tc) -> find_original_args messages id = []) ∧
  ((∃ tc, invocation_of messages id tc) ->
     ∃ tc, invocation_of messages id tc ∧
           find_original_args messages id = default [] (tc_args tc)) ∧
  (∀ tc, invocation_of messages id tc ->
         (∀ tc', invocation_of messages id tc' -> tc' = tc) ->
         find_original_args messages id = default [] (tc_args tc)) ∧
  (∀ n c w, (∀ tc, ¬ invocation_of messages id tc) ->
     n ∈ interrupt_tools -> id ∉ processed w ->
     ∃ tail,
       res_events (before_model_body self state rt messages
                     (ToolMessage c id (Some n) "error") w)
       = EvUpdateCall id n [] c :: ev_get self rt :: tail ∧
       (∀ cur, profile_of self rt w = Some cur ->
          EvModelInvoke
            (DictMessage "system" (MEMORY_UPDATE_INSTRUCTIONS_format cur) ::
             messages ++ [DictMessage "user" (reject_content n [] c)])
          ∈ tail)) ∧
  (∀ h w n a c, (id, n, a, c) ∈ update_calls (res_events (run_hook h self state rt w)) ->
     (∀ tc, ¬ invocation_of messages id tc) -> a = []).
Proof.
  cbn zeta.
  assert ((∀ tc, ¬ invocation_of (state_get_messages state) id tc) ->
          find_original_args (state_get_messages state) id = []) as Hempty.
  { intros Hno. apply scan_no_match. intros tc Hm. by apply (Hno tc), matches_in_rev. }
  assert ((∃ tc, invocation_of (state_get_messages state) id tc) ->
     ∃ tc, invocation_of (state_get_messages state) id tc ∧
           find_original_args (state_get_messages state) id = default [] (tc_args tc)) as Hsome.
  { intros (tc & Htc).
    destruct (scan_match (rev (state_get_messages state)) id []) as (tc' & Hm & Hscan);
      [done|exists tc; by apply matches_in_rev|].
    exists tc'. split; [by apply matches_in_rev|done]. }
  split; [done|]. split; [done|]. split.
  { intros tc Htc Huniq. destruct Hsome as (tc' & Htc' & ->); [by exists tc|].
    by rewrite (Huniq tc' Htc'). }
  split.
  - intros n c w Hno Hn Hid. rewrite body_spec.
    rewrite (proj2 (rejection_of_Some _ id n c)) by done. cbn [fst snd].
    rewrite decide_False by done.
    destruct (attempt_cases self state rt (state_get_messages state) (id, n, c) w)
      as [[Hp Hr]|[(cur & e & Hp & Hl & Hr)|(cur & v & Hp & Hl & Hr)]];
      rewrite Hr; unfold ev_call, update_prompt; cbn [fst snd res_events];
      rewrite (Hempty Hno); eexists; (split; [reflexivity|]);
      intros cur' Hcur'; rewrite Hp in Hcur'; [done| |];
      injection Hcur' as <-; set_solver.
  - intros h w n a c Hin Hno.
    destruct (hook_runs self state rt h w) as (o & Hruns & _).
    eapply elem_of_prefix in Hin; [|by eapply runs_calls_prefix].
    apply list_elem_of_fmap in Hin as (q & Hq & _).
    unfold call_of in Hq. injection Hq as -> _ -> _. by apply Hempty.
Qed.

(** ** The composed feedback *)

Lemma str_app_assoc (a b c : string) : (a +:+ b) +:+ c = a +:+ b +:+ c.
Proof.
  induction a as [|x a IH]; [reflexivity|].
  change (String x ((a +:+ b) +:+ c) = String x (a +:+ b +:+ c)). by f_equal.
Qed.

Lemma str_app_nil_r (a : string) : a +:+ "" = a.
Proof.
  induction a as [|x a IH]; [reflexivity|].
  change (String x (a +:+ "") = String x a). by f_equal.
Qed.

Lemma contains_self n : contains n n.
Proof. exists "", "". change ("" +:+ n +:+ "") with (n +:+ ""). by rewrite str_app_nil_r. Qed.

Lemma contains_head n post : contains n (n +:+ post).
Proof. by exists "", post. Qed.

Lemma contains_app_r n a b : contains n b -> contains n (a +:+ b).
Proof. intros (pre & post & ->). exists (a +:+ pre), post. by rewrite str_app_assoc. Qed.

Lemma contains_app_l n a b : contains n a -> contains n (a +:+ b).
Proof.
  intros (pre & post & ->). exists pre, (post +:+ b). by rewrite !str_app_assoc.
Qed.

Lemma has_prefix_sound p s : has_prefix p s = true -> ∃ post, s = p +:+ post.
Proof.
  revert s. induction p as [|a p IH]; intros s; simpl.
  - intros _. by exists s.
  - destruct s as [|b s]; [done|].
    destruct (decide (a = b)) as [->|]; [|done].
    intros (post & ->)%IH. by exists post.
Qed.

Lemma has_infix_sound n h : has_infix n h = true -> contains n h.
Proof.
  induction h as [|b h IH]; simpl.
  - destruct (has_prefix n "") eqn:Hp; [|done].
    intros _. apply has_prefix_sound in Hp as (post & ->). apply contains_head.
  - destruct (has_prefix n (String b h)) eqn:Hp.
    + intros _. apply has_prefix_sound in Hp as (post & ->). apply contains_head.
    + intros (pre & post & ->)%IH. by exists (String b pre), post.
Qed.

(** C4: the composed feedback embeds the serialized arguments, the
    rationale verbatim when there is one, the name of the tool, the
    reinforcement of the editing rules, and a critique by tool:
    triage criteria and response style preferences for [write_email],
    triage criteria and meeting scheduling preferences for
    [schedule_meeting], when questions should be asked or how they
    should be phrased for [Question], a generic sentence naming the
    tool otherwise; it is the last message of the prompt sent to the
    model. *)
Theorem feedback_composition (tool_name : string) (original_args : args_dict)
    (rejection_message : string) :
  let content := reject_content tool_name original_args rejection_message in
  contains (json_dumps original_args) content ∧
  (rejection_message ≠ "" -> contains rejection_message content) ∧
  contains ("Rejected tool call: " +:+ tool_name) content ∧
  contains MEMORY_UPDATE_INSTRUCTIONS_REINFORCEMENT content ∧
  (tool_name = "write_email" ->
     contains "triage criteria" content ∧ contains "response style preferences" content) ∧
  (tool_name = "schedule_meeting" ->
     contains "triage criteria" content ∧
     contains "meeting scheduling preferences" content) ∧
  (tool_name = "Question" ->
     contains "when questions should be asked or how they should be phrased" content) ∧
  (tool_name ∉ interrupt_tools ->
     contains ("The user rejected the " +:+ tool_name +:+ " tool call.") content) ∧
  (∀ state messages id cur,
     last (update_prompt state messages (id, tool_name, rejection_message) cur)
     = Some (DictMessage "user"
               (reject_content tool_name (find_original_args messages id) rejection_message))).
Proof.
  cbn zeta. unfold reject_content.
  split. { do 7 apply contains_app_r. apply contains_head. }
  split.
  { intros Hne. do 8 apply contains_app_r. apply contains_app_l.
    unfold rejection_context. rewrite decide_False by done.
    do 3 apply contains_app_r. apply contains_self. }
  split.
  { do 3 apply contains_app_r.
    rewrite <- (str_app_assoc "Rejected tool call: " tool_name). apply contains_head. }
  split. { do 12 apply contains_app_r. apply contains_self. }
  split.
  { intros ->. split; apply contains_app_l, has_infix_sound; vm_compute; reflexivity. }
  split.
  { intros ->. split; apply contains_app_l, has_infix_sound; vm_compute; reflexivity. }
  split.
  { intros ->. apply contains_app_l, has_infix_sound; vm_compute; reflexivity. }
  split.
  { intros Hn. apply contains_app_l. unfold reject_feedback.
    unfold interrupt_tools in Hn.
    rewrite !decide_False by set_solver.
    exists "", (" " +:+ "Update the User Profile to learn from this feedback and avoid similar rejections in the future.").
    rewrite !str_app_assoc. reflexivity. }
  intros state messages id cur. unfold update_prompt. cbn [fst snd].
  rewrite app_comm_cons. apply last_snoc.
Qed.

(** ** A profile update that raises *)

(** The profile in the store once the updates for the rejections [L]
    have completed, starting from the profile [cur] with [k] model calls
    made so far; [None] when one of these model calls raises. *)
Fixpoint completes (state : agent_state) (messages : list message)
    (L : list (string * string * string)) (k : nat) (cur : string) : option string :=
  match L with
  | [] => Some cur
  | q :: L' =>
      match llm_invoke k (update_prompt state messages q cur) with
      | Returned v => completes state messages L' (S k) v
      | Raised _ => None
      end
  end.

Lemma for_each_fails_at self state rt messages dn p rest e cur :
  ∀ w cur0,
  profile_of self rt w = Some cur0 ->
  completes state messages dn (llm_calls w) cur0 = Some cur ->
  llm_invoke (llm_calls w + length dn) (update_prompt state messages p cur) = Raised e ->
  let r := for_each (dn ++ p :: rest) (attempt self state rt messages) w in
  res_outcome r = Raised e ∧
  (∃ pre, res_events r
          = pre ++ [ev_call messages p; ev_get self rt;
                    EvModelInvoke (update_prompt state messages p cur)] ∧
          marks pre = map entry_id dn) ∧
  processed (res_world r) = list_to_set (map entry_id dn) ∪ processed w ∧
  profile_of self rt (res_world r) = Some cur.
Proof.
  induction dn as [|q dn IH]; intros w cur0 Hprof Hcomp Hraise; cbn zeta.
  - simpl in Hcomp. injection Hcomp as ->. rewrite Nat.add_0_r in Hraise.
    cbn [app for_each]. unfold bind.
    destruct (attempt_cases self state rt messages p w)
      as [[Hp Hr]|[(cur' & e' & Hp & Hl & Hr)|(cur' & v & Hp & Hl & Hr)]].
    + congruence.
    + rewrite Hprof in Hp. injection Hp as <-. rewrite Hraise in Hl. injection Hl as <-.
      rewrite Hr. cbn [res_outcome res_world res_events].
      split; [done|]. split; [by exists []|].
      split; [simpl; set_solver|]. done.
    + rewrite Hprof in Hp. injection Hp as <-. rewrite Hraise in Hl. done.
  - cbn [completes] in Hcomp.
    destruct (llm_invoke (llm_calls w) (update_prompt state messages q cur0)) as [v|e0] eqn:Hq;
      [|done].
    cbn [app for_each]. unfold bind.
    destruct (attempt_cases self state rt messages q w)
      as [[Hp Hr]|[(cur' & e' & Hp & Hl & Hr)|(cur' & v' & Hp & Hl & Hr)]].
    + congruence.
    + rewrite Hprof in Hp. injection Hp as <-. rewrite Hq in Hl. done.
    + rewrite Hprof in Hp. injection Hp as <-. rewrite Hq in Hl. injection Hl as <-.
      rewrite Hr. cbn [res_outcome res_world res_events].
      destruct (IH (world_after_update self rt q.1.1 v w) v)
        as (Ho & (pre & Hev & Hm) & Hw & Hpr).
      * unfold profile_of, store_content, world_after_update. simpl.
        by rewrite lookup_total_insert_eq, lookup_insert_eq.
      * exact Hcomp.
      * cbn [world_after_update llm_calls length] in *.
        replace (S (llm_calls w) + length dn) with (llm_calls w + S (length dn)) by lia.
        exact Hraise.
      * cbn zeta in Ho, Hev, Hw, Hpr.
        split; [exact Ho|]. split.
        { rewrite Hev.
          exists ([ev_call messages q; ev_get self rt;
                   EvModelInvoke (update_prompt state messages q cur0);
                   ev_put self rt v; EvMark q.1.1] ++ pre).
          split; [by rewrite <- app_assoc|]. simpl. by rewrite Hm. }
        split; [rewrite Hw; simpl; set_solver|]. exact Hpr.
Qed.

(** C5: when the model call of the update for a pending rejection
    raises (the first pending one, or a later one after the updates
    before it have completed), the hook raises the same exception, makes
    no store write and no mark for that attempt (the store and the
    ledger are as the attempt found them), so the next hook invocation
    starts by calling the updater for the same rejection again; an
    identifier is only ever marked straight after the write of its
    completed update. *)
Theorem failed_update_is_retried (h : hook) self state rt (w : world) :
  let r := run_hook h self state rt w in
  let ms := state_get_messages state in
  (∀ p rest cur e,
     pending (rev ms) (processed w) = p :: rest ->
     profile_of self rt w = Some cur ->
     llm_invoke (llm_calls w) (update_prompt state ms p cur) = Raised e ->
     r = Result (Raised e) (world_after_model_error w)
           [ev_call ms p; ev_get self rt; EvModelInvoke (update_prompt state ms p cur)]) ∧
  (∀ e, res_outcome r = Raised e ->
     ∃ dn p rest pre tail,
       pending (rev ms) (processed w) = dn ++ p :: rest ∧
       res_events r = pre ++ ev_call ms p :: tail ∧
       marks pre = map entry_id dn ∧
       puts tail = [] ∧ marks tail = [] ∧
       processed (res_world r) = list_to_set (map entry_id dn) ∪ processed w ∧
       (entry_id p ∉ processed (res_world r)) ∧
       ((tail = [ev_get self rt] ∧ e = AttributeError "value")
        ∨ (∃ cur k, tail = [ev_get self rt; EvModelInvoke (update_prompt state ms p cur)] ∧
                    llm_invoke k (update_prompt state ms p cur) = Raised e)) ∧
       (∀ h2, ∃ tail2,
          res_events (run_hook h2 self state rt (res_world r)) = ev_call ms p :: tail2)) ∧
  (∀ id, id ∈ marks (res_events r) ->
     ∃ pre v post, res_events r = pre ++ [ev_put self rt v; EvMark id] ++ post ∧
                   id ∈ call_ids pre) ∧
  (∀ dn p rest cur0 cur e,
     pending (rev ms) (processed w) = dn ++ p :: rest ->
     profile_of self rt w = Some cur0 ->
     completes state ms dn (llm_calls w) cur0 = Some cur ->
     llm_invoke (llm_calls w + length dn) (update_prompt state ms p cur) = Raised e ->
     res_outcome r = Raised e ∧
     (∃ pre, res_events r
             = pre ++ [ev_call ms p; ev_get self rt;
                       EvModelInvoke (update_prompt state ms p cur)] ∧
             marks pre = map entry_id dn) ∧
     processed (res_world r) = list_to_set (map entry_id dn) ∪ processed w ∧
     (entry_id p ∉ processed (res_world r)) ∧
     profile_of self rt (res_world r) = Some cur ∧
     (∀ h2, ∃ tail2,
        res_events (run_hook h2 self state rt (res_world r)) = ev_call ms p :: tail2)).
Proof.
  cbn zeta. split; [|split; [|split]].
  - intros p rest cur e Hpend Hprof Hllm.
    rewrite run_hook_eq, before_model_unfold. cbn zeta. rewrite Hpend.
    cbn [for_each]. unfold bind.
    destruct (attempt_cases self state rt (state_get_messages state) p w)
      as [[Hp Hr]|[(cur' & e' & Hp & Hl & Hr)|(cur' & v & Hp & Hl & Hr)]].
    + congruence.
    + rewrite Hr. cbn [res_outcome res_world res_events].
      rewrite Hprof in Hp. injection Hp as <-. rewrite Hllm in Hl. injection Hl as <-. done.
    + rewrite Hprof in Hp. injection Hp as <-. rewrite Hllm in Hl. done.
  - intros e He.
    destruct (hook_runs self state rt h w) as (o & Hruns & Ho).
    rewrite He in Ho. destruct o as [[]|e']; [done|]. injection Ho as ->.
    destruct (runs_raised _ _ _ _ _ _ _ _ _ Hruns)
      as (dn & p & rest & pre & tail & HL & Hevs & Hm & Hc & Hw & Hpt & Hmt & Hct & Hcase).
    exists dn, p, rest, pre, tail.
    split; [done|]. split; [done|]. split; [done|]. split; [done|]. split; [done|].
    split; [done|].
    split.
    { rewrite Hw. intros [Hin|Hin]%elem_of_union.
      - pose proof (pending_NoDup (rev (state_get_messages state)) (processed w)) as Hnd.
        rewrite HL, map_app in Hnd. simpl in Hnd.
        apply NoDup_app in Hnd as (_ & Hdis & _).
        apply elem_of_list_to_set in Hin. apply (Hdis _ Hin). by left.
      - eapply pending_fresh; [|exact Hin]. rewrite HL. apply elem_of_app. right. by left. }
    split.
    { destruct Hcase as [(? & ? & _)|?]; [by left|by right]. }
    intros h2.
    destruct (hook_runs self state rt h2 (res_world (run_hook h self state rt w)))
      as (o2 & Hruns2 & _).
    rewrite Hw in Hruns2. rewrite (pending_resume _ _ _ _ _ HL) in Hruns2.
    by eapply runs_cons_head.
  - destruct (hook_runs self state rt h w) as (o & Hruns & _).
    by eapply runs_mark_after_put.
  - intros dn p rest cur0 cur e Hpend Hprof Hcomp Hraise.
    destruct (for_each_fails_at self state rt (state_get_messages state) dn p rest e cur
                w cur0 Hprof Hcomp Hraise) as (Ho & Hev & Hw & Hpr).
    cbn zeta in Ho, Hev, Hw, Hpr.
    assert (run_hook h self state rt w
            = Result (Raised e)
                (res_world (for_each (dn ++ p :: rest)
                              (attempt self state rt (state_get_messages state)) w))
                (res_events (for_each (dn ++ p :: rest)
                              (attempt self state rt (state_get_messages state)) w))) as ->.
    { rewrite run_hook_eq, before_model_unfold. cbn zeta. rewrite Hpend, Ho. done. }
    cbn [res_outcome res_world res_events].
    split; [done|]. split; [done|]. split; [done|].
    split.
    { rewrite Hw. intros [Hin|Hin]%elem_of_union.
      - pose proof (pending_NoDup (rev (state_get_messages state)) (processed w)) as Hnd.
        rewrite Hpend, map_app in Hnd.
        apply NoDup_app in Hnd as (_ & Hdis & _).
        apply elem_of_list_to_set in Hin. apply (Hdis _ Hin). simpl. by left.
      - eapply pending_fresh; [|exact Hin]. rewrite Hpend. apply elem_of_app. right. by left. }
    split; [done|].
    intros h2.
    destruct (hook_runs self state rt h2
                (res_world (for_each (dn ++ p :: rest)
                              (attempt self state rt (state_get_messages state)) w)))
      as (o2 & Hruns2 & _).
    rewrite Hw in Hruns2. rewrite (pending_resume _ _ _ _ _ Hpend) in Hruns2.
    by eapply runs_cons_head.
Qed.

(** ** The asynchronous path *)

(** C6 (as amended): the class defines an asynchronous twin for
    [before_model] only; [abefore_model], [_aupdate_memory_for_reject],
    [aupdate_memory] and [aget_memory] yield, on every state, runtime and
    world, the same outcome, the same world (store and ledger) and the
    same calls (detection decisions, feedback message, store write,
    marks) as their synchronous counterparts, and hence as [after_tool]. *)
Theorem async_mirrors_before_model self state rt (w : world) :
  class_hooks (async_name "before_model") = Some abefore_model ∧
  abefore_model self state rt w = before_model self state rt w ∧
  abefore_model self state rt w = after_tool self state rt w ∧
  (∀ n a c, _aupdate_memory_for_reject self n a c state rt w
            = _update_memory_for_reject self n a c state rt w) ∧
  (∀ s ns ms, aupdate_memory s ns ms w = update_memory s ns ms w) ∧
  (∀ s ns d, aget_memory s ns d w = get_memory s ns d w).
Proof.
  split; [reflexivity|]. split; [by rewrite abefore_model_eq|].
  split; [by rewrite abefore_model_eq, after_tool_eq|].
  split; [intros; by rewrite _aupdate_memory_for_reject_eq|].
  split; [intros; by rewrite aupdate_memory_eq|].
  intros; by rewrite aget_memory_eq.
Qed.

(** ** The profile in the store *)

Definition world_after_put (s : nat) (ns : list string) (key value : string) (w : world) : world :=
  World (<[s := <[(ns, key) := value]> (store_content w s)]> (stores w))
        (processed w) (llm_calls w).

Lemma store_content_after_put s ns key value w :
  store_content (world_after_put s ns key value w) s !! (ns, key) = Some value.
Proof.
  unfold store_content, world_after_put. simpl.
  by rewrite lookup_total_insert_eq, lookup_insert_eq.
Qed.

Lemma get_memory_present s ns d w value :
  store_content w s !! (ns, "user_preferences") = Some value ->
  get_memory s ns d w = Result (Returned value) w [EvStoreGet s ns "user_preferences"].
Proof.
  intros H. unfold get_memory, bind, store_get. simpl. rewrite H. reflexivity.
Qed.

Lemma get_memory_absent s ns d w :
  store_content w s !! (ns, "user_preferences") = None ->
  get_memory s ns d w =
  Result (Returned d) (world_after_put s ns "user_preferences" d w)
         [EvStoreGet s ns "user_preferences"; EvStorePut s ns "user_preferences" d].
Proof.
  intros H. unfold get_memory, bind, store_get, store_put. simpl. rewrite H. reflexivity.
Qed.

(** C7: a document written with [store.put] under a namespace and the
    key "user_preferences" is what [get_memory] returns for that
    namespace, without a further write; in particular the profile a
    completed [_update_memory_for_reject] wrote under
    ("email_assistant", "user_profile") / "user_preferences" is what
    [get_memory] reads back from the same store, namespace and key. *)
Theorem profile_round_trip self state rt (w : world) :
  (∀ s ns doc d,
     get_memory s ns d (res_world (store_put s ns "user_preferences" doc w))
     = Result (Returned doc) (res_world (store_put s ns "user_preferences" doc w))
              [EvStoreGet s ns "user_preferences"]) ∧
  (∀ n a c d,
     let r := _update_memory_for_reject self n a c state rt w in
     is_returned (res_outcome r) ->
     ∃ doc,
       puts (res_events r)
         = [(_get_store self rt, update_namespace, "user_preferences", doc)] ∧
       get_memory (_get_store self rt) update_namespace d (res_world r)
         = Result (Returned doc) (res_world r)
                  [EvStoreGet (_get_store self rt) update_namespace "user_preferences"]).
Proof.
  split.
  - intros s ns doc d. apply get_memory_present.
    change (res_world (store_put s ns "user_preferences" doc w))
      with (world_after_put s ns "user_preferences" doc w).
    apply store_content_after_put.
  - intros n a c d. cbn zeta.
    unfold _update_memory_for_reject, update_memory, bind, store_get. simpl.
    destruct (store_content w (_get_store self rt) !! (update_namespace, "user_preferences"))
      as [cur|] eqn:Hcur; simpl; [|done].
    destruct (llm_invoke (llm_calls w) _) as [doc|e] eqn:Hllm; simpl; [|done].
    intros _. exists doc. split; [reflexivity|].
    apply get_memory_present. unfold store_content. simpl.
    by rewrite lookup_total_insert_eq, lookup_insert_eq.
Qed.

(** C8: [get_memory] returns the stored content and only reads when a
    value exists under the namespace and key; otherwise it writes the
    default document there, returns it, and the next read returns the
    same document without writing. *)
Theorem get_memory_seeds_default s ns (default_content : string) (w : world) :
  let r := get_memory s ns default_content w in
  (∀ value, store_content w s !! (ns, "user_preferences") = Some value ->
     res_outcome r = Returned value ∧ res_world r = w ∧ puts (res_events r) = [] ∧
     res_events r = [EvStoreGet s ns "user_preferences"]) ∧
  (store_content w s !! (ns, "user_preferences") = None ->
     res_outcome r = Returned default_content ∧
     res_events r = [EvStoreGet s ns "user_preferences";
                     EvStorePut s ns "user_preferences" default_content] ∧
     store_content (res_world r) s !! (ns, "user_preferences") = Some default_content ∧
     processed (res_world r) = processed w ∧
     get_memory s ns default_content (res_world r)
       = Result (Returned default_content) (res_world r)
                [EvStoreGet s ns "user_preferences"]).
Proof.
  cbn zeta. split.
  - intros value H. rewrite (get_memory_present _ _ _ _ _ H). done.
  - intros H. rewrite (get_memory_absent _ _ _ _ H). cbn [res_outcome res_world res_events].
    split; [done|]. split; [done|].
    split; [apply store_content_after_put|]. split; [done|].
    apply get_memory_present, store_content_after_put.
Qed.

(** C9: without a profile under the namespace and key, [update_memory]
    and [aupdate_memory] raise on the attribute access after the read:
    the model is not invoked, nothing is written, the world is
    unchanged; with a profile the model is invoked and an exception can
    only be the model's. *)
Theorem update_memory_needs_profile s ns (messages : list message) (w : world) :
  (store_content w s !! (ns, "user_preferences") = None ->
     update_memory s ns messages w
       = Result (Raised (AttributeError "value")) w [EvStoreGet s ns "user_preferences"] ∧
     aupdate_memory s ns messages w
       = Result (Raised (AttributeError "value")) w [EvStoreGet s ns "user_preferences"]) ∧
  (∀ value, store_content w s !! (ns, "user_preferences") = Some value ->
     let prompt := DictMessage "system" (MEMORY_UPDATE_INSTRUCTIONS_format value) :: messages in
     let r := update_memory s ns messages w in
     model_prompts (res_events r) = [prompt] ∧
     aupdate_memory s ns messages w = r ∧
     (∀ e, res_outcome r = Raised e -> llm_invoke (llm_calls w) prompt = Raised e) ∧
     (∀ doc, llm_invoke (llm_calls w) prompt = Returned doc ->
        res_outcome r = Returned tt ∧
        puts (res_events r) = [(s, ns, "user_preferences", doc)])).
Proof.
  split.
  - intros H. unfold aupdate_memory, store_aget, update_memory, bind, store_get, raise. simpl.
    rewrite H. simpl. done.
  - intros value H. cbn zeta.
    split; [|split; [reflexivity|]].
    + unfold update_memory, bind, store_get, invoke_model, store_put. simpl.
      rewrite H. simpl. by destruct (llm_invoke _ _).
    + unfold update_memory, bind, store_get, invoke_model, store_put. simpl.
      rewrite H. simpl. destruct (llm_invoke _ _) as [doc|e] eqn:Hl; simpl.
      * split; [done|]. by intros ? [= <-].
      * split; [by intros ? [= <-]|done].
Qed.

(** ** What the hooks return and touch *)

Lemma subseteq_union_marks (P : gset string) l : P ⊆ list_to_set l ∪ P.
Proof. set_solver. Qed.

(** C10: [before_model], [after_tool] and [abefore_model] never return
    a state update: an invocation returns [None] or raises, and it
    returns [None] whenever the profile is in the store and the model
    answers; the state is only read; in the world, the only store entry
    that can change is the profile key of the chosen store, every write
    goes there, and the ledger only grows, by the marked identifiers. *)
Theorem hooks_return_none self state rt (w : world) :
  ∀ f, f ∈ [before_model; after_tool; abefore_model] ->
  let r := f self state rt w in
  (res_outcome r = Returned None ∨ ∃ e, res_outcome r = Raised e) ∧
  (∀ u, res_outcome r ≠ Returned (Some u)) ∧
  (profile_of self rt w ≠ None -> (∀ k prompt, is_returned (llm_invoke k prompt)) ->
     res_outcome r = Returned None) ∧
  (state_get_messages state = [] -> r = Result (Returned None) w []) ∧
  (∀ s k, (s, k) ≠ (_get_store self rt, (update_namespace, "user_preferences")) ->
          store_content (res_world r) s !! k = store_content w s !! k) ∧
  (∀ q, q ∈ puts (res_events r) ->
        ∃ v, q = (_get_store self rt, update_namespace, "user_preferences", v)) ∧
  processed (res_world r) = list_to_set (marks (res_events r)) ∪ processed w ∧
  processed w ⊆ processed (res_world r).
Proof.
  intros f Hf. cbn zeta.
  assert (f self state rt w = before_model self state rt w) as ->.
  { apply elem_of_cons in Hf as [->|Hf]; [done|].
    apply elem_of_cons in Hf as [->|Hf]; [apply after_tool_eq|].
    apply elem_of_cons in Hf as [->|Hf]; [done|]. by apply elem_of_nil in Hf. }
  destruct (before_model_runs self state rt w) as (o & Hruns & Ho).
  split. { rewrite Ho. destruct o; eauto. }
  split. { rewrite Ho. by destruct o. }
  split.
  { intros Hprof Hllm. rewrite Ho.
    by rewrite (runs_total _ _ _ _ _ _ _ _ _ Hruns Hprof Hllm). }
  split. { intros Hnil. unfold before_model. rewrite Hnil. reflexivity. }
  split; [by eapply runs_frame|].
  split; [by eapply runs_puts|].
  pose proof (runs_processed _ _ _ _ _ _ _ _ _ Hruns) as Hw.
  split; [done|]. rewrite Hw. apply subseteq_union_marks.
Qed.

(** ** Further properties of the hooks *)

Lemma runs_event_store self state rt messages L w o w' evs :
  runs self state rt messages L w o w' evs ->
  ∀ ev s, ev ∈ evs -> event_store ev = Some s -> s = _get_store self rt.
Proof.
  induction 1 as [w|p L w cur v o w' evs Hp Hl Hr IH|p L w Hp|p L w cur e Hp Hl];
    intros ev s Hin Hs.
  - by apply elem_of_nil in Hin.
  - apply elem_of_app in Hin as [Hin|Hin]; [|by eapply IH].
    repeat (apply elem_of_cons in Hin as [->|Hin]; [simpl in Hs; congruence|]).
    by apply elem_of_nil in Hin.
  - repeat (apply elem_of_cons in Hin as [->|Hin]; [simpl in Hs; congruence|]).
    by apply elem_of_nil in Hin.
  - repeat (apply elem_of_cons in Hin as [->|Hin]; [simpl in Hs; congruence|]).
    by apply elem_of_nil in Hin.
Qed.

Lemma runs_other_store self state rt messages L w o w' evs :
  runs self state rt messages L w o w' evs ->
  ∀ s, s ≠ _get_store self rt -> store_content w' s = store_content w s.
Proof.
  induction 1 as [w|p L w cur v o w' evs Hp Hl Hr IH|p L w Hp|p L w cur e Hp Hl];
    intros s Hs; try done.
  rewrite IH by done. unfold store_content, world_after_update. simpl.
  by rewrite lookup_total_insert_ne.
Qed.

Lemma runs_prompts self state rt messages L w o w' evs :
  runs self state rt messages L w o w' evs ->
  (∀ prompt, prompt ∈ model_prompts evs ->
     ∃ p cur, p ∈ L ∧ prompt = update_prompt state messages p cur) ∧
  length (model_prompts evs) ≤ length (update_calls evs).
Proof.
  induction 1 as [w|p L w cur v o w' evs Hp Hl Hr IH|p L w Hp|p L w cur e Hp Hl]; simpl.
  - split; [by intros ? ?%elem_of_nil|done].
  - destruct IH as [IH1 IH2]. split; [|lia].
    intros prompt [->|Hin]%elem_of_cons.
    + exists p, cur. split; [by left|done].
    + destruct (IH1 _ Hin) as (q & c & ? & ?). exists q, c. split; [by right|done].
  - split; [by intros ? ?%elem_of_nil|lia].
  - split; [|lia]. intros prompt [->|Hin]%elem_of_cons; [|by apply elem_of_nil in Hin].
    exists p, cur. split; [by left|done].
Qed.

Lemma pending_nil ms P :
  (∀ m p, m ∈ ms -> rejection_of m = Some p -> entry_id p ∈ P) -> pending ms P = [].
Proof.
  induction ms as [|m ms IH]; intros H; [done|]. simpl.
  assert (pending ms P = []) as Hrest.
  { apply IH. intros m' p Hin. apply H. by right. }
  destruct (rejection_of m) as [[[id n] c]|] eqn:Hm; [|done].
  rewrite decide_True; [done|]. apply (H m (id, n, c)); [by left|done].
Qed.

Lemma no_pending_aux h self state rt w :
  (∀ m p, m ∈ state_get_messages state -> rejection_of m = Some p ->
          entry_id p ∈ processed w) ->
  run_hook h self state rt w = Result (Returned None) w [].
Proof.
  intros H. rewrite run_hook_eq, before_model_unfold. cbn zeta.
  rewrite pending_nil; [reflexivity|].
  intros m p Hin. apply H. by apply list_elem_of_In, in_rev, list_elem_of_In.
Qed.

(** X1: the store of the runtime takes precedence over the store the
    instance was built with: with a runtime that carries another store,
    every store call of a hook goes to the runtime's store and the
    instance's store is left as it was. *)
Theorem runtime_store_overrides_instance_store (h : hook) self state (s : nat) (w : world) :
  s ≠ self_store self ->
  let r := run_hook h self state (RuntimeWithStore s) w in
  store_content (res_world r) (self_store self) = store_content w (self_store self) ∧
  (∀ ev s', ev ∈ res_events r -> event_store ev = Some s' -> s' = s) ∧
  (∀ q, q ∈ puts (res_events r) -> q.1.1.1 = s).
Proof.
  intros Hs. cbn zeta.
  destruct (hook_runs self state (RuntimeWithStore s) h w) as (o & Hruns & _).
  split; [|split].
  - eapply runs_other_store; [done|]. simpl. congruence.
  - intros ev s' Hin Hev.
    exact (runs_event_store _ _ _ _ _ _ _ _ _ Hruns ev s' Hin Hev).
  - intros q Hq. destruct (runs_puts _ _ _ _ _ _ _ _ _ Hruns q Hq) as [v ->]. done.
Qed.

(** X2: a hook does nothing at all, and returns [None], when every
    result of the history is either not a rejection of an interruptible
    tool (an approved call, another tool, a message of another kind) or
    has its identifier in the ledger: no store read, no model call, no
    write, no mark, the world unchanged. *)
Theorem no_pending_rejection_no_effect (h : hook) self state rt (w : world) :
  (∀ m p, m ∈ state_get_messages state -> rejection_of m = Some p ->
          entry_id p ∈ processed w) ->
  run_hook h self state rt w = Result (Returned None) w [].
Proof. apply no_pending_aux. Qed.

(** X3: once a hook invocation has returned, every further hook
    invocation on the same history is without any effect: it makes no
    call and leaves the world as it is. *)
Theorem returned_hook_is_final (h1 h2 : hook) self state rt (w : world) :
  is_returned (res_outcome (run_hook h1 self state rt w)) ->
  run_hook h2 self state rt (res_world (run_hook h1 self state rt w))
  = Result (Returned None) (res_world (run_hook h1 self state rt w)) [].
Proof.
  intros Hret. apply no_pending_aux.
  intros m p Hin Hrej.
  destruct (hook_summary self state rt h1 w) as (Hw & _ & _ & _ & _ & Hr).
  destruct (Hr Hret) as [_ Hmarks]. rewrite Hw, Hmarks.
  destruct (decide (entry_id p ∈ processed w)) as [Hp|Hp]; [set_solver|].
  apply elem_of_union. left. apply elem_of_list_to_set.
  eapply pending_complete; [|done|done].
  apply list_elem_of_In, in_rev. rewrite rev_involutive. by apply list_elem_of_In.
Qed.

Lemma runs_prompts_profile self state rt messages L w o w' evs :
  runs self state rt messages L w o w' evs ->
  ∀ i prompt, model_prompts evs !! i = Some prompt ->
    ∃ p cur, L !! i = Some p ∧ prompt = update_prompt state messages p cur ∧
      match i with
      | 0 => profile_of self rt w = Some cur
      | S j => puts evs !! j
               = Some (_get_store self rt, update_namespace, "user_preferences", cur)
      end.
Proof.
  induction 1 as [w|p L w cur v o w' evs Hp Hl Hr IH|p L w Hp|p L w cur e Hp Hl];
    intros i prompt Hi.
  - done.
  - cbn [app model_prompts puts ev_call ev_get ev_put] in *.
    destruct i as [|j].
    + injection Hi as <-. exists p, cur. done.
    + cbn [lookup list_lookup] in Hi.
      destruct (IH j prompt Hi) as (q & cur' & HL & -> & Hcur).
      exists q, cur'. split; [done|]. split; [done|].
      destruct j as [|j']; [|exact Hcur].
      unfold profile_of, store_content, world_after_update in Hcur. simpl in Hcur.
      rewrite lookup_total_insert_eq, lookup_insert_eq in Hcur. injection Hcur as <-. done.
  - done.
  - cbn [model_prompts ev_call ev_get] in Hi.
    destruct i as [|j]; [|done].
    injection Hi as <-. exists p, cur. done.
Qed.

(** X4: every prompt a hook sends to the model is the system
    instructions formatted with the profile that is in the store at that
    moment (the profile the hook found for its first model call, the
    document written by the previous update for each later one), then
    the whole history in order, then the feedback composed for the
    pending rejection of the same rank; a hook makes at most one model
    call per call of the profile updater. *)
Theorem hook_prompts_embed_history (h : hook) self state rt (w : world) :
  let r := run_hook h self state rt w in
  let ms := state_get_messages state in
  (∀ i prompt, model_prompts (res_events r) !! i = Some prompt ->
     ∃ p cur, pending (rev ms) (processed w) !! i = Some p ∧
       prompt = DictMessage "system" (MEMORY_UPDATE_INSTRUCTIONS_format cur) :: ms ++
                [DictMessage "user"
                   (reject_content p.1.2 (find_original_args ms p.1.1) p.2)] ∧
       match i with
       | 0 => profile_of self rt w = Some cur
       | S j => puts (res_events r) !! j
                = Some (_get_store self rt, update_namespace, "user_preferences", cur)
       end) ∧
  (∀ prompt, prompt ∈ model_prompts (res_events r) ->
     ∃ p cur, p ∈ pending (rev ms) (processed w) ∧
       prompt = DictMessage "system" (MEMORY_UPDATE_INSTRUCTIONS_format cur) :: ms ++
                [DictMessage "user"
                   (reject_content p.1.2 (find_original_args ms p.1.1) p.2)]) ∧
  length (model_prompts (res_events r)) ≤ length (update_calls (res_events r)).
Proof.
  cbn zeta. destruct (hook_runs self state rt h w) as (o & Hruns & _).
  split.
  - intros i prompt Hi.
    destruct (runs_prompts_profile _ _ _ _ _ _ _ _ _ Hruns i prompt Hi)
      as (p & cur & HL & -> & Hcur).
    exists p, cur. done.
  - by apply runs_prompts in Hruns.
Qed.

(** X5: two updates in a row: after an update whose model call
    returned a document, the store holds that document under the key,
    the other keys of the store are as before, and the next update sends
    the model that document as the current profile. *)
Theorem updates_chain s ns (ms1 ms2 : list message) (w : world) (cur doc : string) :
  store_content w s !! (ns, "user_preferences") = Some cur ->
  llm_invoke (llm_calls w)
    (DictMessage "system" (MEMORY_UPDATE_INSTRUCTIONS_format cur) :: ms1) = Returned doc ->
  let w1 := res_world (update_memory s ns ms1 w) in
  store_content w1 s !! (ns, "user_preferences") = Some doc ∧
  (∀ k, k ≠ (ns, "user_preferences") -> store_content w1 s !! k = store_content w s !! k) ∧
  processed w1 = processed w ∧
  model_prompts (res_events (update_memory s ns ms2 w1))
  = [DictMessage "system" (MEMORY_UPDATE_INSTRUCTIONS_format doc) :: ms2].
Proof.
  intros Hcur Hllm. cbn zeta.
  assert (res_world (update_memory s ns ms1 w)
          = World (<[s := <[(ns, "user_preferences") := doc]> (store_content w s)]> (stores w))
                  (processed w) (S (llm_calls w))) as ->.
  { unfold update_memory, bind, store_get, invoke_model, store_put. simpl.
    rewrite Hcur. simpl. rewrite Hllm. reflexivity. }
  assert (store_content
            (World (<[s := <[(ns, "user_preferences") := doc]> (store_content w s)]> (stores w))
                   (processed w) (S (llm_calls w))) s !! (ns, "user_preferences") = Some doc)
    as Hdoc.
  { unfold store_content. simpl. by rewrite lookup_total_insert_eq, lookup_insert_eq. }
  split; [done|]. split.
  { intros k Hk. unfold store_content. simpl.
    rewrite lookup_total_insert_eq. by rewrite lookup_insert_ne. }
  split; [done|].
  unfold update_memory, bind, store_get, invoke_model, store_put.
  cbn [res_outcome res_world res_events]. rewrite Hdoc.
  cbn [res_outcome res_world res_events llm_calls].
  destruct (llm_invoke (S (llm_calls w)) _); reflexivity.
Qed.

End Assistant.

(** ** Concrete runs *)

Ltac in_list :=
  repeat first [apply list_elem_of_here | apply list_elem_of_further].

Ltac case_in_list H :=
  repeat (apply elem_of_cons in H as [H|H]; [try discriminate H|]);
  try (by apply elem_of_nil in H).

Ltac in_interrupt_tools :=
  unfold interrupt_tools;
  repeat first [apply elem_of_union_l, elem_of_singleton; reflexivity
               | apply elem_of_union_r, elem_of_singleton; reflexivity
               | apply elem_of_union_l].

(** C1, as stated, fails when the model call raises: [before_model]
    raises without marking, and [after_tool] calls the updater again for
    the same identifier. *)
Lemma updater_called_twice_when_model_raises :
  times "call_1"
    (call_ids (turn_events
       (run_hooks model_raises "" "" ex_json_dumps [BeforeModel; AfterTool] ex_self
                  (state_of history_one_rejection) RuntimeNone ex_world))) = 2 ∧
  times "call_1"
    (marks (turn_events
       (run_hooks model_raises "" "" ex_json_dumps [BeforeModel; AfterTool] ex_self
                  (state_of history_one_rejection) RuntimeNone ex_world))) = 0 ∧
  ¬ times "call_1"
    (call_ids (turn_events
       (run_hooks model_raises "" "" ex_json_dumps [BeforeModel; AfterTool] ex_self
                  (state_of history_one_rejection) RuntimeNone ex_world))) ≤ 1.
Proof.
  assert (times "call_1"
    (call_ids (turn_events
       (run_hooks model_raises "" "" ex_json_dumps [BeforeModel; AfterTool] ex_self
                  (state_of history_one_rejection) RuntimeNone ex_world))) = 2) as H
    by (vm_compute; reflexivity).
  split; [exact H|]. split; [vm_compute; reflexivity|]. rewrite H. lia.
Qed.

Lemma dedup_across_hooks_witness :
  (times "call_1"
     (call_ids (turn_events
        (run_hooks model_answers "" "" ex_json_dumps [BeforeModel; AfterTool; BeforeModel] ex_self
                   (state_of history_one_rejection) RuntimeNone ex_world))) = 1 ∧
   times "call_1"
     (marks (turn_events
        (run_hooks model_answers "" "" ex_json_dumps [BeforeModel; AfterTool; BeforeModel] ex_self
                   (state_of history_one_rejection) RuntimeNone ex_world))) = 1 ∧
   "call_1" ∈ processed (turn_world
        (run_hooks model_answers "" "" ex_json_dumps [BeforeModel; AfterTool; BeforeModel] ex_self
                   (state_of history_one_rejection) RuntimeNone ex_world))) ∧
  (("call_1" ∉ processed (res_world
        (run_hook model_raises "" "" ex_json_dumps BeforeModel ex_self
                  (state_of history_one_rejection) RuntimeNone ex_world))) ∧
   ∃ tl, call_ids (res_events
        (run_hook model_raises "" "" ex_json_dumps AfterTool ex_self
           (state_of history_one_rejection) RuntimeNone
           (res_world
              (run_hook model_raises "" "" ex_json_dumps BeforeModel ex_self
                        (state_of history_one_rejection) RuntimeNone ex_world))))
        = "call_1" :: tl).
Proof.
  pose proof (dedup_across_hooks model_answers "" "" ex_json_dumps
                [BeforeModel; AfterTool; BeforeModel] ex_self
                (state_of history_one_rejection) RuntimeNone ex_world "call_1") as H.
  pose proof (dedup_across_hooks model_raises "" "" ex_json_dumps
                [] ex_self
                (state_of history_one_rejection) RuntimeNone ex_world "call_1") as G.
  cbn zeta in H, G. destruct H as (_ & _ & H & _).
  destruct G as (_ & _ & _ & _ & _ & _ & _ & G).
  split.
  - destruct H as [_ H].
    + vm_compute. repeat constructor.
    + apply H.
      * discriminate.
      * apply not_elem_of_empty.
      * exists "write_email", "too formal". split.
        -- unfold state_of, history_one_rejection; simpl. in_list.
        -- unfold interrupt_tools. set_solver.
  - destruct (G BeforeModel (ModelError "overloaded")) as (_ & G2 & G3).
    + vm_compute. reflexivity.
    + vm_compute. reflexivity.
    + split; [exact G2|]. exact (G3 AfterTool).
Defined.

(** C2, as stated, fails when the model call raises: of two pending
    rejections only the newest is handed to the updater, and neither
    identifier reaches the ledger. *)
Lemma older_rejection_skipped_when_model_raises :
  call_ids (res_events
    (before_model model_raises "" "" ex_json_dumps ex_self
                  (state_of history_two_rejections) RuntimeNone ex_world)) = ["call_2"] ∧
  processed (res_world
    (before_model model_raises "" "" ex_json_dumps ex_self
                  (state_of history_two_rejections) RuntimeNone ex_world)) = ∅ ∧
  rejection_of (ToolMessage "too formal" "call_1" (Some "write_email") "error")
    = Some ("call_1", "write_email", "too formal") ∧
  ToolMessage "too formal" "call_1" (Some "write_email") "error" ∈ history_two_rejections.
Proof.
  split; [vm_compute; reflexivity|]. split; [vm_compute; reflexivity|].
  split; [vm_compute; reflexivity|].
  unfold history_two_rejections. in_list.
Qed.

Lemma hook_processes_pending_witness :
  ((times "call_1" (call_ids (res_events
      (run_hook model_answers "" "" ex_json_dumps BeforeModel ex_self
                (state_of history_two_rejections) RuntimeNone ex_world))) = 1 ∧
    "call_1" ∈ processed (res_world
      (run_hook model_answers "" "" ex_json_dumps BeforeModel ex_self
                (state_of history_two_rejections) RuntimeNone ex_world))) ∧
   (times "call_2" (call_ids (res_events
      (run_hook model_answers "" "" ex_json_dumps BeforeModel ex_self
                (state_of history_two_rejections) RuntimeNone ex_world))) = 1 ∧
    "call_2" ∈ processed (res_world
      (run_hook model_answers "" "" ex_json_dumps BeforeModel ex_self
                (state_of history_two_rejections) RuntimeNone ex_world)))) ∧
  (∃ dn p rest,
     pending (rev (state_get_messages (state_of history_two_rejections))) (processed ex_world)
       = dn ++ p :: rest ∧
     update_calls (res_events
       (run_hook model_raises "" "" ex_json_dumps BeforeModel ex_self
                 (state_of history_two_rejections) RuntimeNone ex_world))
       = map (call_of (state_get_messages (state_of history_two_rejections))) (dn ++ [p]) ∧
     marks (res_events
       (run_hook model_raises "" "" ex_json_dumps BeforeModel ex_self
                 (state_of history_two_rejections) RuntimeNone ex_world))
       = map entry_id dn).
Proof.
  pose proof (hook_processes_pending model_answers "" "" ex_json_dumps BeforeModel ex_self
                (state_of history_two_rejections) RuntimeNone ex_world) as H.
  pose proof (hook_processes_pending model_raises "" "" ex_json_dumps BeforeModel ex_self
                (state_of history_two_rejections) RuntimeNone ex_world) as G.
  cbn zeta in H, G. destruct H as (_ & _ & _ & H & _). destruct G as (_ & _ & _ & _ & G).
  split.
  - destruct H as (_ & _ & _ & H); [vm_compute; exact I|].
    split.
    + apply (H "call_1" "write_email" "too formal").
      * unfold state_of, history_two_rejections; simpl. in_list.
      * unfold interrupt_tools. set_solver.
      * apply not_elem_of_empty.
    + apply (H "call_2" "schedule_meeting" "wrong day").
      * unfold state_of, history_two_rejections; simpl. in_list.
      * unfold interrupt_tools. set_solver.
      * apply not_elem_of_empty.
  - destruct (G (ModelError "overloaded")) as (dn & p & rest & G1 & G2 & G3 & _).
    + vm_compute. reflexivity.
    + exists dn, p, rest. done.
Defined.

Lemma original_args_reconstruction_witness :
  find_original_args history_orphan_rejection "call_9" = [] ∧
  find_original_args history_one_rejection "call_1"
    = [("to", JStr "jane@example.com"); ("subject", JStr "Re: next week")] ∧
  update_calls (res_events
    (run_hook model_answers "" "" ex_json_dumps AfterTool ex_self
              (state_of history_orphan_rejection) RuntimeNone ex_world))
    = [("call_9", "Question", [], "not now")].
Proof.
  pose proof (original_args_reconstruction model_answers "" "" ex_json_dumps ex_self
                (state_of history_orphan_rejection) RuntimeNone "call_9") as H9.
  pose proof (original_args_reconstruction model_answers "" "" ex_json_dumps ex_self
                (state_of history_one_rejection) RuntimeNone "call_1") as H1.
  cbn zeta in H9, H1.
  destruct H9 as (H9 & _). destruct H1 as (_ & _ & H1 & _).
  split.
  - apply H9. intros tc (c & tcs & Hin & _).
    unfold state_of, history_orphan_rejection in Hin; simpl in Hin. case_in_list Hin.
  - split; [|vm_compute; reflexivity].
    apply (H1 ex_call_email).
    + exists "", [ex_call_email]. split; [|split; [in_list|done]].
      unfold state_of, history_one_rejection; simpl. in_list.
    + intros tc' (c & tcs & Hin & Htc & _).
      unfold state_of, history_one_rejection in Hin; simpl in Hin.
      case_in_list Hin. injection Hin as _ ->. by case_in_list Htc.
Defined.

Lemma feedback_composition_witness :
  contains "too formal"
    (reject_content ex_json_dumps "write_email" [("to", JStr "jane@example.com")] "too formal") ∧
  contains "triage criteria"
    (reject_content ex_json_dumps "write_email" [("to", JStr "jane@example.com")] "too formal") ∧
  contains "response style preferences"
    (reject_content ex_json_dumps "write_email" [("to", JStr "jane@example.com")] "too formal") ∧
  contains "The user rejected the archive_email tool call."
    (reject_content ex_json_dumps "archive_email" [] "").
Proof.
  pose proof (feedback_composition "" "" ex_json_dumps "write_email"
                [("to", JStr "jane@example.com")] "too formal") as H.
  pose proof (feedback_composition "" "" ex_json_dumps "archive_email" [] "") as G.
  cbn zeta in H, G.
  destruct H as (_ & Hr & _ & _ & Hw & _).
  destruct G as (_ & _ & _ & _ & _ & _ & _ & Hg & _).
  split; [apply Hr; discriminate|].
  split; [apply Hw; reflexivity|].
  split; [apply Hw; reflexivity|].
  apply Hg. unfold interrupt_tools. set_solver.
Defined.

Lemma failed_update_is_retried_witness :
  (res_outcome
     (run_hook model_raises "" "" ex_json_dumps BeforeModel ex_self
               (state_of history_one_rejection) RuntimeNone ex_world)
     = Raised (ModelError "overloaded") ∧
   ∃ dn p rest pre tail,
     pending (rev (state_get_messages (state_of history_one_rejection))) (processed ex_world)
       = dn ++ p :: rest ∧
     res_events
       (run_hook model_raises "" "" ex_json_dumps BeforeModel ex_self
                 (state_of history_one_rejection) RuntimeNone ex_world)
       = pre ++ ev_call (state_get_messages (state_of history_one_rejection)) p :: tail ∧
     puts tail = [] ∧ marks tail = [] ∧
     (entry_id p ∉ processed (res_world
       (run_hook model_raises "" "" ex_json_dumps BeforeModel ex_self
                 (state_of history_one_rejection) RuntimeNone ex_world))) ∧
     ∀ h2, ∃ tail2,
       res_events (run_hook model_raises "" "" ex_json_dumps h2 ex_self
                     (state_of history_one_rejection) RuntimeNone
                     (res_world
                        (run_hook model_raises "" "" ex_json_dumps BeforeModel ex_self
                                  (state_of history_one_rejection) RuntimeNone ex_world)))
       = ev_call (state_get_messages (state_of history_one_rejection)) p :: tail2) ∧
  (res_outcome
     (run_hook model_raises_after_first "" "" ex_json_dumps BeforeModel ex_self
               (state_of history_two_rejections) RuntimeNone ex_world)
     = Raised (ModelError "overloaded") ∧
   processed (res_world
     (run_hook model_raises_after_first "" "" ex_json_dumps BeforeModel ex_self
               (state_of history_two_rejections) RuntimeNone ex_world))
     = list_to_set ["call_2"] ∪ processed ex_world ∧
   ("call_1" ∉ processed (res_world
     (run_hook model_raises_after_first "" "" ex_json_dumps BeforeModel ex_self
               (state_of history_two_rejections) RuntimeNone ex_world))) ∧
   profile_of ex_self RuntimeNone (res_world
     (run_hook model_raises_after_first "" "" ex_json_dumps BeforeModel ex_self
               (state_of history_two_rejections) RuntimeNone ex_world))
     = Some "Prefers short, informal replies.").
Proof.
  split.
  - assert (res_outcome
      (run_hook model_raises "" "" ex_json_dumps BeforeModel ex_self
                (state_of history_one_rejection) RuntimeNone ex_world)
      = Raised (ModelError "overloaded")) as Hraised by (vm_compute; reflexivity).
    split; [exact Hraised|].
    pose proof (failed_update_is_retried model_raises "" "" ex_json_dumps BeforeModel ex_self
                  (state_of history_one_rejection) RuntimeNone ex_world) as H.
    cbn zeta in H. destruct H as (_ & H & _).
    destruct (H _ Hraised)
      as (dn & p & rest & pre & tail & H1 & H2 & _ & H4 & H5 & _ & H7 & _ & H9).
    exists dn, p, rest, pre, tail. eauto 10.
  - pose proof (failed_update_is_retried model_raises_after_first "" "" ex_json_dumps
                  BeforeModel ex_self (state_of history_two_rejections) RuntimeNone ex_world)
      as H.
    cbn zeta in H. destruct H as (_ & _ & _ & H).
    destruct (H [("call_2", "schedule_meeting", "wrong day")]
                ("call_1", "write_email", "too formal") []
                "Prefers short replies." "Prefers short, informal replies."
                (ModelError "overloaded"))
      as (H1 & _ & H3 & H4 & H5 & _).
    + vm_compute. reflexivity.
    + vm_compute. reflexivity.
    + vm_compute. reflexivity.
    + reflexivity.
    + split; [exact H1|]. split; [exact H3|]. split; [exact H4|]. exact H5.
Defined.

(** C6, as stated, fails on the entry points: the class has no
    asynchronous twin of the fallback hook [after_tool]. *)
Lemma no_async_after_tool :
  sync_hook_names = ["before_model"; "after_tool"] ∧
  class_hooks model_answers "" "" ex_json_dumps "after_tool"
    = Some (after_tool model_answers "" "" ex_json_dumps) ∧
  class_hooks model_answers "" "" ex_json_dumps (async_name "after_tool") = None ∧
  ¬ (∀ name, name ∈ sync_hook_names ->
       ∃ f, class_hooks model_answers "" "" ex_json_dumps (async_name name) = Some f).
Proof.
  split; [reflexivity|]. split; [reflexivity|]. split; [reflexivity|].
  intros H. destruct (H "after_tool") as [f Hf].
  - unfold sync_hook_names. in_list.
  - discriminate Hf.
Qed.

Lemma profile_round_trip_witness :
  ∃ doc,
    puts (res_events
      (_update_memory_for_reject model_answers "" "" ex_json_dumps ex_self "write_email" []
         "too formal" (state_of history_one_rejection) RuntimeNone ex_world))
      = [(0, update_namespace, "user_preferences", doc)] ∧
    res_outcome
      (get_memory 0 update_namespace "default profile"
         (res_world
            (_update_memory_for_reject model_answers "" "" ex_json_dumps ex_self "write_email" []
               "too formal" (state_of history_one_rejection) RuntimeNone ex_world)))
      = Returned doc.
Proof.
  pose proof (profile_round_trip model_answers "" "" ex_json_dumps ex_self
                (state_of history_one_rejection) RuntimeNone ex_world) as [_ H].
  destruct (H "write_email" [] "too formal" "default profile") as (doc & Hputs & Hget).
  - vm_compute. exact I.
  - exists doc. split; [exact Hputs|]. exact (f_equal res_outcome Hget).
Defined.

Lemma get_memory_seeds_default_witness :
  res_outcome (get_memory 0 update_namespace "default profile" ex_world)
    = Returned "Prefers short replies." ∧
  puts (res_events (get_memory 0 update_namespace "default profile" ex_world)) = [] ∧
  res_outcome (get_memory 0 update_namespace "default profile" ex_world_no_profile)
    = Returned "default profile" ∧
  store_content
    (res_world (get_memory 0 update_namespace "default profile" ex_world_no_profile)) 0
    !! (update_namespace, "user_preferences") = Some "default profile".
Proof.
  pose proof (get_memory_seeds_default 0 update_namespace "default profile" ex_world) as [H _].
  pose proof (get_memory_seeds_default 0 update_namespace "default profile" ex_world_no_profile)
    as [_ G].
  cbn zeta in H, G.
  destruct (H "Prefers short replies.") as (H1 & _ & H2 & _); [vm_compute; reflexivity|].
  destruct G as (G1 & _ & G2 & _); [vm_compute; reflexivity|].
  done.
Defined.

Lemma update_memory_needs_profile_witness :
  update_memory model_answers "" "" 0 update_namespace history_one_rejection ex_world_no_profile
    = Result (Raised (AttributeError "value")) ex_world_no_profile
             [EvStoreGet 0 update_namespace "user_preferences"] ∧
  res_outcome
    (update_memory model_answers "" "" 0 update_namespace history_one_rejection ex_world)
    = Returned tt.
Proof.
  pose proof (update_memory_needs_profile model_answers "" "" 0 update_namespace
                history_one_rejection ex_world_no_profile) as [H _].
  pose proof (update_memory_needs_profile model_answers "" "" 0 update_namespace
                history_one_rejection ex_world) as [_ G].
  split.
  - apply H. vm_compute. reflexivity.
  - destruct (G "Prefers short replies.") as (_ & _ & _ & G4); [vm_compute; reflexivity|].
    destruct (G4 "Prefers short, informal replies.") as [G5 _]; [reflexivity|]. exact G5.
Defined.

Lemma hooks_return_none_witness :
  res_outcome
    (after_tool model_answers "" "" ex_json_dumps ex_self
                (state_of history_two_rejections) RuntimeNone ex_world) = Returned None ∧
  processed ex_world ⊆
    processed (res_world
      (after_tool model_answers "" "" ex_json_dumps ex_self
                  (state_of history_two_rejections) RuntimeNone ex_world)).
Proof.
  pose proof (hooks_return_none model_answers "" "" ex_json_dumps ex_self
                (state_of history_two_rejections) RuntimeNone ex_world
                (after_tool model_answers "" "" ex_json_dumps)) as H.
  cbn zeta in H.
  destruct H as (_ & _ & H & _ & _ & _ & _ & G).
  - in_list.
  - split; [|exact G]. apply H.
    + vm_compute. discriminate.
    + intros k prompt. exact I.
Defined.

Lemma runtime_store_overrides_instance_store_witness :
  store_content
    (res_world (run_hook model_answers "" "" ex_json_dumps BeforeModel ex_self
                  (state_of history_one_rejection) (RuntimeWithStore 7) ex_world_deployed)) 0
  = store_content ex_world_deployed 0 ∧
  puts (res_events (run_hook model_answers "" "" ex_json_dumps BeforeModel ex_self
                      (state_of history_one_rejection) (RuntimeWithStore 7) ex_world_deployed))
  = [(7, update_namespace, "user_preferences", "Prefers short, informal replies.")].
Proof.
  pose proof (runtime_store_overrides_instance_store model_answers "" "" ex_json_dumps
                BeforeModel ex_self (state_of history_one_rejection) 7 ex_world_deployed) as H.
  cbn zeta in H. destruct H as (H & _); [discriminate|].
  split; [exact H|]. vm_compute. reflexivity.
Defined.

Lemma no_pending_rejection_no_effect_witness :
  run_hook model_answers "" "" ex_json_dumps AfterTool ex_self
           (state_of history_approved) RuntimeNone ex_world
  = Result (Returned None) ex_world [].
Proof.
  apply (no_pending_rejection_no_effect model_answers "" "" ex_json_dumps AfterTool ex_self
           (state_of history_approved) RuntimeNone ex_world).
  intros m p Hin Hrej. unfold state_of, history_approved in Hin. simpl in Hin.
  apply elem_of_cons in Hin as [->|Hin]; [discriminate Hrej|].
  apply elem_of_cons in Hin as [->|Hin]; [discriminate Hrej|].
  apply elem_of_cons in Hin as [->|Hin]; [discriminate Hrej|].
  by apply elem_of_nil in Hin.
Defined.

Lemma returned_hook_is_final_witness :
  res_events
    (run_hook model_answers "" "" ex_json_dumps AfterTool ex_self
       (state_of history_two_rejections) RuntimeNone
       (res_world (run_hook model_answers "" "" ex_json_dumps BeforeModel ex_self
                     (state_of history_two_rejections) RuntimeNone ex_world))) = [].
Proof.
  rewrite (returned_hook_is_final model_answers "" "" ex_json_dumps BeforeModel AfterTool
             ex_self (state_of history_two_rejections) RuntimeNone ex_world).
  - reflexivity.
  - vm_compute. exact I.
Defined.

Lemma hook_prompts_embed_history_witness :
  ∃ p0 p1,
    model_prompts (res_events
      (run_hook model_answers "<" ">" ex_json_dumps BeforeModel ex_self
                (state_of history_two_rejections) RuntimeNone ex_world))
    = [DictMessage "system" "<Prefers short replies.>" :: history_two_rejections ++ [p0];
       DictMessage "system" "<Prefers short, informal replies.>" ::
         history_two_rejections ++ [p1]].
Proof.
  pose proof (hook_prompts_embed_history model_answers "<" ">" ex_json_dumps BeforeModel
                ex_self (state_of history_two_rejections) RuntimeNone ex_world) as [H _].
  cbn zeta in H.
  assert (∃ a b, model_prompts (res_events
      (run_hook model_answers "<" ">" ex_json_dumps BeforeModel ex_self
                (state_of history_two_rejections) RuntimeNone ex_world)) = [a; b])
    as (a & b & Hab) by (vm_compute; eauto).
  destruct (H 0 a) as (p0 & cur0 & _ & -> & Hc0); [by rewrite Hab|].
  destruct (H 1 b) as (p1 & cur1 & _ & -> & Hc1); [by rewrite Hab|].
  assert (cur0 = "Prefers short replies.") as ->.
  { vm_compute in Hc0. by injection Hc0. }
  assert (cur1 = "Prefers short, informal replies.") as ->.
  { vm_compute in Hc1. by injection Hc1. }
  eexists _, _. rewrite Hab. reflexivity.
Defined.

Lemma updates_chain_witness :
  model_prompts
    (res_events
       (update_memory model_answers "<" ">" 0 update_namespace [HumanMessage "second"]
          (res_world (update_memory model_answers "<" ">" 0 update_namespace
                        [HumanMessage "first"] ex_world))))
  = [[DictMessage "system" "<Prefers short, informal replies.>"; HumanMessage "second"]].
Proof.
  pose proof (updates_chain model_answers "<" ">" 0 update_namespace
                [HumanMessage "first"] [HumanMessage "second"] ex_world
                "Prefers short replies." "Prefers short, informal replies.") as H.
  cbn zeta in H. destruct H as (_ & _ & _ & H).
  - vm_compute. reflexivity.
  - reflexivity.
  - exact H.
Defined.

(** * utils.py: parsing and formatting helpers *)

Module Utils.

(** [KeyError] of a dict lookup [d[key]]. *)
Inductive key_error : Type := KeyError (key : string).

(** [parse_email(email_input)]: the elements of the returned tuple are
    evaluated in the order author, to, subject, email_thread. *)
Definition parse_email (email_input : gmap string string)
    : key_error + (string * string * string * string) :=
  match email_input !! "author" with
  | None => inl (KeyError "author")
  | Some author =>
      match email_input !! "to" with
      | None => inl (KeyError "to")
      | Some to =>
          match email_input !! "subject" with
          | None => inl (KeyError "subject")
          | Some subject =>
              match email_input !! "email_thread" with
              | None => inl (KeyError "email_thread")
              | Some email_thread => inr (author, to, subject, email_thread)
              end
          end
      end
  end.

(** [format_email_markdown(subject, author, to, email_thread, email_id)];
    [email_id] is [None] or a string, and is falsy when [None] or empty. *)
Definition id_section (email_id : option string) : string :=
  match email_id with
  | None => ""
  | Some i => if decide (i = "") then "" else nl +:+ "**ID**: " +:+ i
  end.

Definition format_email_markdown (subject author to email_thread : string)
    (email_id : option string) : string :=
  nl +:+ nl +:+
  "**Subject**: " +:+ subject +:+ nl +:+
  "**From**: " +:+ author +:+ nl +:+
  "**To**: " +:+ to +:+ id_section email_id +:+ nl +:+
  nl +:+
  email_thread +:+ nl +:+
  nl +:+
  "---" +:+ nl.

(** The first steps of [main] in email_assistant_deepagents.py:
    [author, to, subject, email_thread = parse_email(email_input)] and
    [format_email_markdown(subject, author, to, email_thread)]. *)
Definition email_markdown_of_input (email_input : gmap string string)
    : key_error + string :=
  match parse_email email_input with
  | inl e => inl e
  | inr (author, to, subject, email_thread) =>
      inr (format_email_markdown subject author to email_thread None)
  end.







(** ** Properties *)

(** X6: [parse_email] returns the four fields, in the order author, to,
    subject, email_thread, exactly when the input has the four keys, and
    otherwise raises [KeyError] for the first missing key in that order;
    keys other than these four do not matter. *)
Theorem parse_email_keys (email_input : gmap string string) :
  (∀ a t s e, parse_email email_input = inr (a, t, s, e) ↔
     email_input !! "author" = Some a ∧ email_input !! "to" = Some t ∧
     email_input !! "subject" = Some s ∧ email_input !! "email_thread" = Some e) ∧
  (∀ k, parse_email email_input = inl (KeyError k) ->
     email_input !! k = None ∧ k ∈ ["author"; "to"; "subject"; "email_thread"]) ∧
  (∀ k v, k ∉ ["author"; "to"; "subject"; "email_thread"] ->
     parse_email (<[k := v]> email_input) = parse_email email_input).
Proof.
  split; [|split].
  - intros a t s e. unfold parse_email.
    destruct (email_input !! "author") as [a'|]; [|split; [done|by intros [? _]]].
    destruct (email_input !! "to") as [t'|]; [|split; [done|by intros (_ & ? & _)]].
    destruct (email_input !! "subject") as [s'|]; [|split; [done|by intros (_ & _ & ? & _)]].
    destruct (email_input !! "email_thread") as [e'|];
      [|split; [done|by intros (_ & _ & _ & ?)]].
    split; [by intros [= -> -> -> ->]|by intros ([= ->] & [= ->] & [= ->] & [= ->])].
  - intros k. unfold parse_email.
    destruct (email_input !! "author") as [a'|] eqn:Ha.
    2:{ intros [= <-]. split; [done|]. repeat constructor. }
    destruct (email_input !! "to") as [t'|] eqn:Ht.
    2:{ intros [= <-]. split; [done|]. repeat constructor. }
    destruct (email_input !! "subject") as [s'|] eqn:Hs.
    2:{ intros [= <-]. split; [done|]. repeat constructor. }
    destruct (email_input !! "email_thread") as [e'|] eqn:He; [done|].
    intros [= <-]. split; [done|]. repeat constructor.
  - intros k v Hk. unfold parse_email.
    rewrite !lookup_insert_ne; [done|..]; intros ->; apply Hk; repeat constructor.
Qed.




(** X8: the first steps of [main]: for an input with the four keys the
    markdown shows the subject, the sender after "From" and the
    recipient after "To", in this order, followed by the thread, and has
    no ID section; an empty [email_id] formats like an absent one; a
    missing key raises [KeyError]. *)
Theorem email_markdown_of_input_fields (email_input : gmap string string) (a t s e : string) :
  email_input !! "author" = Some a -> email_input !! "to" = Some t ->
  email_input !! "subject" = Some s -> email_input !! "email_thread" = Some e ->
  email_markdown_of_input email_input
  = inr (nl +:+ nl +:+ "**Subject**: " +:+ s +:+ nl +:+ "**From**: " +:+ a +:+ nl +:+
         "**To**: " +:+ t +:+ nl +:+ nl +:+ e +:+ nl +:+ nl +:+ "---" +:+ nl) ∧
  format_email_markdown s a t e (Some "") = format_email_markdown s a t e None ∧
  (∀ i, i ≠ "" ->
     contains ("**To**: " +:+ t +:+ nl +:+ "**ID**: " +:+ i +:+ nl)
              (format_email_markdown s a t e (Some i))) ∧
  (∀ k, email_markdown_of_input (delete k email_input) = inl (KeyError k) ↔
        k ∈ ["author"; "to"; "subject"; "email_thread"]).
Proof.
  intros Ha Ht Hs He.
  split; [|split; [|split]].
  - unfold email_markdown_of_input, parse_email. rewrite Ha, Ht, Hs, He. reflexivity.
  - reflexivity.
  - intros i Hi. unfold format_email_markdown, id_section. rewrite decide_False by done.
    do 8 apply contains_app_r.
    exists "", (nl +:+ e +:+ nl +:+ nl +:+ "---" +:+ nl).
    change ("" +:+ ?x) with x. rewrite !str_app_assoc. reflexivity.
  - intros k. unfold email_markdown_of_input, parse_email.
    destruct (decide (k = "author")) as [->|Hka].
    { rewrite lookup_delete_eq. split; [intros _; repeat constructor|done]. }
    rewrite (lookup_delete_ne _ k "author") by done. rewrite Ha.
    destruct (decide (k = "to")) as [->|Hkt].
    { rewrite lookup_delete_eq. split; [intros _; repeat constructor|done]. }
    rewrite (lookup_delete_ne _ k "to") by done. rewrite Ht.
    destruct (decide (k = "subject")) as [->|Hks].
    { rewrite lookup_delete_eq. split; [intros _; repeat constructor|done]. }
    rewrite (lookup_delete_ne _ k "subject") by done. rewrite Hs.
    destruct (decide (k = "email_thread")) as [->|Hke].
    { rewrite lookup_delete_eq. split; [intros _; repeat constructor|done]. }
    rewrite (lookup_delete_ne _ k "email_thread") by done. rewrite He.
    split; [done|].
    intros Hin. repeat (apply elem_of_cons in Hin as [->|Hin]; [done|]).
    by apply elem_of_nil in Hin.
Qed.

Definition ex_email_input : gmap string string :=
  {[ "author" := "jane@example.com"; "to" := "lance@langchain.dev";
     "subject" := "Quick question about next week";
     "email_thread" := "Can we meet next Tuesday at 2pm?" ]}.

Lemma email_markdown_of_input_fields_witness :
  email_markdown_of_input ex_email_input
  = inr (nl +:+ nl +:+ "**Subject**: Quick question about next week" +:+ nl +:+
         "**From**: jane@example.com" +:+ nl +:+ "**To**: lance@langchain.dev" +:+ nl +:+
         nl +:+ "Can we meet next Tuesday at 2pm?" +:+ nl +:+ nl +:+ "---" +:+ nl) ∧
  email_markdown_of_input (delete "subject" ex_email_input) = inl (KeyError "subject").
Proof.
  pose proof (email_markdown_of_input_fields ex_email_input
                "jane@example.com" "lance@langchain.dev"
                "Quick question about next week" "Can we meet next Tuesday at 2pm?") as H.
  destruct H as (H1 & _ & _ & H4); try (vm_compute; reflexivity).
  split.
  - rewrite H1. reflexivity.
  - apply H4. repeat constructor.
Defined.

End Utils.

(** * middleware/email_genui.py *)

Module GenUI.

(** One call of [push_ui_message(component_name, {}, metadata=
    {"tool_call_id": ..}, message=last_message)]. *)
Record ui_push : Type := UIPush {
  ui_component : string;
  ui_tool_call_id : option string;
  ui_message : message
}.

(** [message.type]; a plain dict has no such attribute. *)
Definition message_type (m : message) : option string :=
  match m with
  | HumanMessage _ => Some "human"
  | SystemMessage _ => Some "system"
  | AIMessage _ _ => Some "ai"
  | ToolMessage _ _ _ _ => Some "tool"
  | DictMessage _ _ => None
  end.

Definition message_tool_calls (m : message) : list tool_call :=
  match m with
  | AIMessage _ tcs => tcs
  | _ => []
  end.

(** The loop over [last_message.tool_calls]; [tool_to_genui_map] maps a
    tool name to the [component_name] of its entry, and [tc_id] is the
    value of [tool_call["id"]]. *)
Fixpoint push_for_calls (tool_to_genui_map : gmap string string) (last_message : message)
    (tool_calls : list tool_call) : list ui_push :=
  match tool_calls with
  | [] => []
  | tool_call :: rest =>
      match tool_to_genui_map !! tc_name tool_call with
      | Some component_name =>
          UIPush component_name (tc_id tool_call) last_message ::
          push_for_calls tool_to_genui_map last_message rest
      | None => push_for_calls tool_to_genui_map last_message rest
      end
  end.

(** [GenUIMiddleware.after_model(state, runtime)]: the value returned
    (or the exception), and the UI messages pushed. *)
Definition after_model (tool_to_genui_map : gmap string string) (state : agent_state)
    : outcome (option (list (string * json))) * list ui_push :=
  let messages := state_get_messages state in
  match last messages with
  | None => (Returned None, [])
  | Some last_message =>
      match message_type last_message with
      | None => (Raised (AttributeError "type"), [])
      | Some ty =>
          if decide (ty = "ai") then
            (Returned None,
             push_for_calls tool_to_genui_map last_message (message_tool_calls last_message))
          else (Returned None, [])
      end
  end.

(** The map built in [create_email_assistant]. *)
Definition assistant_genui_map : gmap string string :=
  {[ "write_email" := "write_email"; "schedule_meeting" := "schedule_meeting";
     "check_calendar_availability" := "check_calendar_availability";
     "Question" := "question" ]}.

(** ** Properties *)

Lemma push_for_calls_spec map last tcs p :
  p ∈ push_for_calls map last tcs ↔
  ∃ tc, tc ∈ tcs ∧ map !! tc_name tc = Some (ui_component p) ∧
        ui_tool_call_id p = tc_id tc ∧ ui_message p = last.
Proof.
  induction tcs as [|tc tcs IH]; simpl.
  - split; [by intros ?%elem_of_nil|]. intros (tc & Hin & _). by apply elem_of_nil in Hin.
  - destruct (map !! tc_name tc) as [c|] eqn:Hc.
    + rewrite elem_of_cons, IH. split.
      * intros [->|(tc' & ? & ?)]; [exists tc; split; [by left|done]|].
        exists tc'. split; [by right|done].
      * intros (tc' & [->|Hin]%elem_of_cons & Hm & Hid & Hmsg).
        -- left. destruct p as [pc pid pm]. simpl in *. congruence.
        -- right. exists tc'. done.
    + rewrite IH. split.
      * intros (tc' & ? & ?). exists tc'. split; [by right|done].
      * intros (tc' & [->|Hin]%elem_of_cons & Hm & ?); [congruence|].
        exists tc'. done.
Qed.

Lemma push_for_calls_length map last tcs :
  length (push_for_calls map last tcs)
  = length (List.filter (fun tc => bool_decide (is_Some (map !! tc_name tc))) tcs).
Proof.
  induction tcs as [|tc tcs IH]; simpl; [done|].
  destruct (map !! tc_name tc) as [c|] eqn:Hc.
  - rewrite bool_decide_eq_true_2 by eauto. simpl. by rewrite IH.
  - rewrite bool_decide_eq_false_2; [done|]. by intros [? ?].
Qed.

(** X9: [after_model] looks at the last message only: the messages
    before it never matter; it pushes nothing when the history is empty
    or the last message is not an assistant message, and otherwise pushes
    one UI message for each tool call of the last message whose tool is
    in the map, with the mapped component, the id of the call and the
    last message, and nothing for the other tools; it never returns a
    state update. *)
Theorem after_model_last_message_only (map : gmap string string)
    (ms : list message) (m : message) (other : list (string * json)) :
  let r := after_model map (AgentState (Some (ms ++ [m])) other) in
  r = after_model map (AgentState (Some [m]) other) ∧
  (message_type m ≠ Some "ai" -> r.2 = []) ∧
  (∀ p, p ∈ r.2 ↔
     ∃ content tcs tc, m = AIMessage content tcs ∧ tc ∈ tcs ∧
       map !! tc_name tc = Some (ui_component p) ∧
       ui_tool_call_id p = tc_id tc ∧ ui_message p = m) ∧
  length r.2
    = length (List.filter (fun tc => bool_decide (is_Some (map !! tc_name tc)))
                          (message_tool_calls m)) ∧
  (∀ u, r.1 ≠ Returned (Some u)) ∧
  after_model map (AgentState (Some []) other) = (Returned None, []) ∧
  after_model map (AgentState None other) = (Returned None, []).
Proof.
  cbn zeta. unfold after_model, state_get_messages. cbn [st_messages].
  rewrite last_snoc. cbn [last].
  split; [done|].
  split.
  { intros Hty. destruct (message_type m) as [ty|]; [|done].
    destruct (decide (ty = "ai")) as [->|]; [done|done]. }
  split.
  { intros p. destruct m as [c|c|c tcs|c i n st|role c]; cbn [message_type message_tool_calls].
    all: try (rewrite decide_False by done).
    all: try (split; [by intros ?%elem_of_nil|by intros (? & ? & ? & ? & _)]).
    rewrite decide_True by done. cbn [snd]. rewrite push_for_calls_spec. split.
    - intros (tc & ? & ?). exists c, tcs, tc. done.
    - intros (c' & tcs' & tc & [= <- <-] & ?). exists tc. done. }
  split.
  { destruct m as [c|c|c tcs|c i n st|role c]; cbn [message_type message_tool_calls].
    all: try (rewrite decide_False by done); try done.
    rewrite decide_True by done. apply push_for_calls_length. }
  split.
  { intros u. destruct (message_type m) as [ty|]; [|done].
    by destruct (decide (ty = "ai")). }
  done.
Qed.

Lemma after_model_last_message_only_witness :
  (after_model assistant_genui_map
     (AgentState (Some (history_one_rejection ++
                        [AIMessage "" [ToolCall "Question" (Some []) (Some "call_3");
                                       ToolCall "Done" (Some []) (Some "call_4")]])) [])).2
  = [UIPush "question" (Some "call_3")
       (AIMessage "" [ToolCall "Question" (Some []) (Some "call_3");
                      ToolCall "Done" (Some []) (Some "call_4")])] ∧
  (after_model assistant_genui_map
     (AgentState (Some ([AIMessage "" [ex_call_email]] ++
                        [ToolMessage "Email sent" "call_1" (Some "write_email") "success"])) [])).2
  = [].
Proof.
  split.
  - pose proof (after_model_last_message_only assistant_genui_map history_one_rejection
                  (AIMessage "" [ToolCall "Question" (Some []) (Some "call_3");
                                 ToolCall "Done" (Some []) (Some "call_4")]) []) as [H _].
    cbn zeta in H. rewrite H. vm_compute. reflexivity.
  - pose proof (after_model_last_message_only assistant_genui_map [AIMessage "" [ex_call_email]]
                  (ToolMessage "Email sent" "call_1" (Some "write_email") "success") [])
      as (_ & H & _).
    cbn zeta in H. apply H. discriminate.
Defined.

End GenUI.
